(** * Nightfall_3 optimist: block-proposed handling and the challenge coordinator

    A shallow embedding of
    - [blockProposedEventHandler] (event-handlers/block-proposed.mjs),
    - [commitToChallenge], [revealChallenge], [createChallenge],
      [startMakingChallenges], [stopMakingChallenges] (services/challenges.mjs),
    as they appear in the repository, over an explicit world state: the
    MongoDB collections, the module-level flag [makeChallenges], the
    challenger websocket and a history of the effects performed.

    JavaScript [async] functions become computations of the monad [M]
    (state passing with exceptions); a promise that is created and not
    awaited becomes a [Task] of the world and is run later by the
    scheduler. *)

From Stdlib Require Import ZArith List String DecimalString Bool Lia.
Import ListNotations.
Open Scope string_scope.
Open Scope list_scope.
Open Scope Z_scope.

(** ** Data *)

(** 32-byte hex words: block hashes, transaction hashes, commitments,
    nullifiers, roots and salts. *)
Definition Hash := Z.

(** [config.ZERO], the all-zero word. *)
Definition ZERO : Hash := 0.

Record Transaction := mkTransaction {
  transactionHash : Hash;
  transactionType : string;
  commitments : list Hash;
  nullifiers : list Hash;
  historicRootBlockNumberL2 : list Z;
  proof : list Z }.

(** The block struct of the contract; [blockNumberL2] is an unsigned
    counter on chain. *)
Record Block := mkBlock {
  proposer : Hash;
  root : Hash;
  leafCount : Z;
  blockNumberL2 : N;
  previousBlockHash : Hash;
  blockHash : Hash;
  transactionHashes : list Hash }.

(** A document of the blocks collection: [saveBlock] stores the block
    together with the layer-1 block number (null once the block-proposed
    event has been removed) and the layer-1 transaction hash. *)
Record StoredBlock := mkStoredBlock {
  blockNumber : option Z;
  transactionHashL1 : Hash;
  storedBlock : Block }.

(** A document of the nullifier collection. *)
Record NullifierRecord := mkNullifierRecord {
  hash : Hash;
  nBlockHash : option Hash }.

(** The frontier representation of the commitment tree (class Timber). *)
Record Timber := mkTimber {
  tRoot : Hash;
  tFrontier : list Hash;
  tLeafCount : Z }.

Record TreeRecord := mkTreeRecord {
  tBlockNumber : Z;
  tBlockNumberL2 : N;
  tTree : Timber }.

(** [err.metadata] of a BlockError. *)
Record Metadata := mkMetadata {
  transactionHashIndex : Z;
  mTransactionHash : Hash }.

Record BlockError := mkBlockError {
  code : Z;
  message : string;
  metadata : Metadata }.

(** What a JavaScript [throw] carries. [FuelExhausted] belongs to the
    model only: it marks a polling loop cut short by its fuel, and
    [waitForChallenger_fuel] shows that 102 units are always enough. *)
Inductive Thrown :=
| JsError (msg : string)
| JsTypeError (msg : string)
| JsRangeError (msg : string)
| JsBlockError (e : BlockError)
| FuelExhausted.

(** The raw transactions produced by [methods.f(...).encodeABI()], kept
    symbolic: one constructor per contract method used. *)
Inductive TxData :=
| challengeNewRootCorrect
    (priorBlock : Block) (priorBlockTransactions : list Transaction)
    (frontier : list Hash) (blk : Block) (txs : list Transaction) (salt : Hash)
| challengeNoDuplicateTransaction
    (blk blk2 : Block) (txs txs2 : list Transaction)
    (transactionIndex1 transactionIndex2 : Z) (salt : Hash)
| challengeTransactionType
    (blk : Block) (txs : list Transaction) (transactionIndex : Z) (salt : Hash)
| challengeHistoricRoot
    (blk : Block) (txs : list Transaction) (transactionIndex : Z) (salt : Hash)
| challengeProofVerification
    (blk : Block) (txs : list Transaction) (transactionIndex : Z)
    (historic : list (Block * list Transaction)) (uncompressedProof : list Z)
    (salt : Hash)
| challengeNullifier
    (blk : Block) (txs : list Transaction)
    (currentTxIdx currentNullifierIdx : option Z)
    (oldBlock : Block) (oldBlockTransactions : list Transaction)
    (oldTxIdx oldNullifierIdx : option Z) (salt : Hash)
| challengeLeafCountCorrect
    (priorBlock : Block) (priorBlockTransactions : list Transaction)
    (blk : Block) (txs : list Transaction) (salt : Hash)
| commitToChallengeCall (commitHash : Hash).

(** The JSON envelope sent on the websocket: [{ type, txDataToSign }].
    [txDataToSign] is [None] for JavaScript's [undefined]. *)
Record WsMessage := mkWsMessage {
  msgType : string;
  msgTxDataToSign : option TxData }.

Record CommitRecord := mkCommitRecord {
  cCommitHash : Hash;
  cTxDataToSign : option TxData }.

(** A promise that was started and not awaited. *)
Inductive Task :=
| CommitTask (txDataToSign : option TxData).

Inductive LogLevel := LError | LWarn | LInfo | LDebug | LSilly.

(** The effects a handler performs, in the order it performs them. *)
Inductive Effect :=
| ESaveBlock (h : Hash)
| EStampNullifiers (ns : list Hash) (h : Hash)
| ERemoveTransactionsFromMemPool (h : Hash)
| ESaveTree (l2 : N) (t : Timber)
| ECheckBlock (h : Hash)
| ESaveCommit (commitHash : Hash) (txDataToSign : option TxData)
| ESetTimeout (ms : Z)
| EWsSend (m : WsMessage)
| ELog (lvl : LogLevel) (msg : string)
| ECommitMined (commitHash : Hash).

(** ** The world *)

Record World := mkWorld {
  blocks : list StoredBlock;
  transactionsDb : list Transaction;
  nullifierDb : list NullifierRecord;
  timberDb : list TreeRecord;
  mempool : list Hash;
  commitsDb : list CommitRecord;
  makeChallenges : bool;
  wsReads : nat;
  saltsDrawn : nat;
  tasks : list Task;
  unhandled : list Thrown;
  trace : list Effect }.

Definition emptyWorld (challenger : bool) : World :=
  mkWorld [] [] [] [] [] [] challenger 0 0 [] [] [].

Inductive Completion (A : Type) :=
| Normal (a : A)
| Throw (e : Thrown).
Arguments Normal {A} a.
Arguments Throw {A} e.

(** What the handlers take from outside: the websocket's readiness at each
    read of [ws.readyState], the random salts, web3's [soliditySha3],
    [config.TIMBER_HEIGHT], the merkle-tree [updateNodes] and the block
    checker of services/check-block.mjs. *)
Record Env := mkEnv {
  wsOpen : nat -> bool;
  rand : nat -> Hash;
  soliditySha3 : option TxData -> Completion Hash;
  TIMBER_HEIGHT : Z;
  updateNodes : list Hash -> Z -> list Hash -> Hash * list Hash;
  checkBlock : World -> Block -> list Transaction -> Completion unit }.

(** ** The monad of asynchronous functions *)

Definition M (A : Type) := World -> Completion A * World.

Definition ret {A} (a : A) : M A := fun w => (Normal a, w).

Definition throw {A} (e : Thrown) : M A := fun w => (Throw e, w).

Definition bind {A B} (m : M A) (k : A -> M B) : M B :=
  fun w => match m w with
           | (Normal a, w') => k a w'
           | (Throw e, w') => (Throw e, w')
           end.

(** [try { body } catch (err) { handler err }] *)
Definition tryCatch {A} (body : M A) (handler : Thrown -> M A) : M A :=
  fun w => match body w with
           | (Normal a, w') => (Normal a, w')
           | (Throw e, w') => handler e w'
           end.

Declare Scope js_scope.
Delimit Scope js_scope with js.
Notation "x <- m ;; k" := (bind m (fun x => k))
  (at level 61, m at next level, right associativity) : js_scope.
Notation "m ;; k" := (bind m (fun _ => k))
  (at level 61, right associativity) : js_scope.
Open Scope js_scope.

Definition gets {A} (f : World -> A) : M A := fun w => (Normal (f w), w).

Definition modify (f : World -> World) : M unit := fun w => (Normal tt, f w).

Definition set_blocks v w :=
  mkWorld v (transactionsDb w) (nullifierDb w) (timberDb w) (mempool w)
    (commitsDb w) (makeChallenges w) (wsReads w) (saltsDrawn w) (tasks w)
    (unhandled w) (trace w).
Definition set_nullifierDb v w :=
  mkWorld (blocks w) (transactionsDb w) v (timberDb w) (mempool w)
    (commitsDb w) (makeChallenges w) (wsReads w) (saltsDrawn w) (tasks w)
    (unhandled w) (trace w).
Definition set_timberDb v w :=
  mkWorld (blocks w) (transactionsDb w) (nullifierDb w) v (mempool w)
    (commitsDb w) (makeChallenges w) (wsReads w) (saltsDrawn w) (tasks w)
    (unhandled w) (trace w).
Definition set_mempool v w :=
  mkWorld (blocks w) (transactionsDb w) (nullifierDb w) (timberDb w) v
    (commitsDb w) (makeChallenges w) (wsReads w) (saltsDrawn w) (tasks w)
    (unhandled w) (trace w).
Definition set_commitsDb v w :=
  mkWorld (blocks w) (transactionsDb w) (nullifierDb w) (timberDb w) (mempool w)
    v (makeChallenges w) (wsReads w) (saltsDrawn w) (tasks w)
    (unhandled w) (trace w).
Definition set_makeChallenges v w :=
  mkWorld (blocks w) (transactionsDb w) (nullifierDb w) (timberDb w) (mempool w)
    (commitsDb w) v (wsReads w) (saltsDrawn w) (tasks w)
    (unhandled w) (trace w).
Definition set_wsReads v w :=
  mkWorld (blocks w) (transactionsDb w) (nullifierDb w) (timberDb w) (mempool w)
    (commitsDb w) (makeChallenges w) v (saltsDrawn w) (tasks w)
    (unhandled w) (trace w).
Definition set_saltsDrawn v w :=
  mkWorld (blocks w) (transactionsDb w) (nullifierDb w) (timberDb w) (mempool w)
    (commitsDb w) (makeChallenges w) (wsReads w) v (tasks w)
    (unhandled w) (trace w).
Definition set_tasks v w :=
  mkWorld (blocks w) (transactionsDb w) (nullifierDb w) (timberDb w) (mempool w)
    (commitsDb w) (makeChallenges w) (wsReads w) (saltsDrawn w) v
    (unhandled w) (trace w).
Definition set_unhandled v w :=
  mkWorld (blocks w) (transactionsDb w) (nullifierDb w) (timberDb w) (mempool w)
    (commitsDb w) (makeChallenges w) (wsReads w) (saltsDrawn w) (tasks w)
    v (trace w).
Definition set_trace v w :=
  mkWorld (blocks w) (transactionsDb w) (nullifierDb w) (timberDb w) (mempool w)
    (commitsDb w) (makeChallenges w) (wsReads w) (saltsDrawn w) (tasks w)
    (unhandled w) v.

(** Record an effect at the end of the history. *)
Definition emit (e : Effect) : M unit :=
  modify (fun w => set_trace (trace w ++ [e]) w).

(** [logger.level(msg)]. The text kept is the literal part of the message;
    the values interpolated into it are left out. *)
Definition logger (lvl : LogLevel) (msg : string) : M unit := emit (ELog lvl msg).

(** ** JavaScript array helpers *)

(** [xs.includes(x)] on hex words. *)
Definition includes (xs : list Hash) (x : Hash) : bool := existsb (Z.eqb x) xs.

(** [xs.findIndex(p)]: the first index whose element satisfies [p], or -1. *)
Fixpoint findIndexFrom {A} (p : A -> bool) (xs : list A) (i : Z) : Z :=
  match xs with
  | [] => -1
  | x :: xs' => if p x then i else findIndexFrom p xs' (i + 1)
  end.

Definition findIndex {A} (p : A -> bool) (xs : list A) : Z := findIndexFrom p xs 0.

(** [xs.indexOf(x)] on hex words. *)
Definition indexOf (xs : list Hash) (x : Hash) : Z := findIndex (Z.eqb x) xs.

(** [xs.map((x, i) => f x i)] *)
Fixpoint mapi_from {A B} (f : A -> Z -> B) (xs : list A) (i : Z) : list B :=
  match xs with
  | [] => []
  | x :: xs' => f x i :: mapi_from f xs' (i + 1)
  end.

Definition mapi {A B} (f : A -> Z -> B) (xs : list A) : list B := mapi_from f xs 0.

(** [xs[i]] for a JavaScript number [i]; [None] is [undefined]. *)
Definition at_index {A} (xs : list A) (i : Z) : option A :=
  if i <? 0 then None else nth_error xs (Z.to_nat i).

(** [String(err)] as used by [new Error(err)]. *)
Definition thrownToString (e : Thrown) : string :=
  match e with
  | JsError m => String.append "Error: " m
  | JsTypeError m => String.append "TypeError: " m
  | JsRangeError m => String.append "RangeError: " m
  | JsBlockError b => String.append "Error: " (message b)
  | FuelExhausted => "FuelExhausted"
  end.

(** The decimal text of a number inside a template literal. *)
Definition showZ (z : Z) : string := NilZero.string_of_int (Z.to_int z).

(** ** The store (services/database.mjs) *)

(** Modelled from the spec: services/database.mjs is missing.
    [saveBlock] is the store's upsertBlock: the document with the same
    block hash is replaced, a new block goes to the end of the collection. *)
Fixpoint upsertBlock (b : StoredBlock) (bs : list StoredBlock) : list StoredBlock :=
  match bs with
  | [] => [b]
  | x :: bs' =>
      if blockHash (storedBlock x) =? blockHash (storedBlock b)
      then b :: bs'
      else x :: upsertBlock b bs'
  end.

(** Modelled from the spec: [saveBlock] of services/database.mjs, the
    upsert of the block's document. *)
Definition saveBlock (b : StoredBlock) : M unit :=
  modify (fun w => set_blocks (upsertBlock b (blocks w)) w) ;;
  emit (ESaveBlock (blockHash (storedBlock b))).

(** Modelled from the spec: getBlockByHash of the abstract keyed store;
    [None] is the [null] the callers test for. *)
Definition getBlockByBlockHash (h : Hash) : M (option StoredBlock) :=
  gets (fun w => find (fun b => blockHash (storedBlock b) =? h) (blocks w)).

(** Modelled from the spec: getBlockByL2Number of the abstract keyed store.
    The argument is a JavaScript number and may be negative. *)
Definition getBlockByBlockNumberL2 (n : Z) : M (option StoredBlock) :=
  gets (fun w => find (fun b => Z.of_N (blockNumberL2 (storedBlock b)) =? n) (blocks w)).

(** Modelled from the spec: getBlockContainingTransaction of the abstract
    keyed store; the caller filters the result, so it is an array. *)
Definition getBlockByTransactionHash (th : Hash) : M (list StoredBlock) :=
  gets (fun w =>
    filter (fun b => includes (transactionHashes (storedBlock b)) th) (blocks w)).

(** Modelled from the spec: getTransactionsByHashes of the abstract keyed
    store, in the order of the hashes asked for. *)
Definition getTransactionsByTransactionHashes (hs : list Hash) : M (list Transaction) :=
  gets (fun w =>
    flat_map (fun h =>
      match find (fun t => transactionHash t =? h) (transactionsDb w) with
      | Some t => [t]
      | None => []
      end) hs).

(** Modelled from the spec: the mempool is the set of transaction hashes
    still offered to the block assembler. *)
Definition removeTransactionsFromMemPool (b : Block) : M unit :=
  modify (fun w =>
    set_mempool (filter (fun h => negb (includes (transactionHashes b) h)) (mempool w)) w) ;;
  emit (ERemoveTransactionsFromMemPool (blockHash b)).

(** Modelled from the spec: [stamp(nullifiers, blockHash)] associates each
    nullifier with the block that spends it. A record that is not stamped
    takes the stamp, a nullifier without a record gets one, and a record
    already stamped keeps its block (a nullifier is stamped by at most one
    block). *)
Definition stampOne (h : Hash) (db : list NullifierRecord) (n : Hash)
  : list NullifierRecord :=
  if existsb (fun r => hash r =? n) db
  then map (fun r =>
         match nBlockHash r with
         | None => if hash r =? n then mkNullifierRecord n (Some h) else r
         | Some _ => r
         end) db
  else db ++ [mkNullifierRecord n (Some h)].

(** Modelled from the spec: [stampNullifiers] of services/database.mjs,
    one nullifier after the other. *)
Definition stampNullifiers (ns : list Hash) (h : Hash) : M unit :=
  modify (fun w => set_nullifierDb (fold_left (stampOne h) ns (nullifierDb w)) w) ;;
  emit (EStampNullifiers ns h).

(** Modelled from the spec: [unstamp(blockHash)] clears the association
    for every nullifier stamped by that block. *)
Definition unstampRecord (h : Hash) (r : NullifierRecord) : NullifierRecord :=
  match nBlockHash r with
  | Some h' => if h' =? h then mkNullifierRecord (hash r) None else r
  | None => r
  end.

(** Modelled from the spec: [unstamp(blockHash)] over the whole
    collection. *)
Definition unstampNullifiers (h : Hash) : M unit :=
  modify (fun w => set_nullifierDb (map (unstampRecord h) (nullifierDb w)) w).

(** Modelled from the spec: the nullifier records that carry a stamp, in
    the order of the collection. *)
Definition retrieveMinedNullifiers : M (list NullifierRecord) :=
  gets (fun w =>
    filter (fun r => match nBlockHash r with Some _ => true | None => false end)
           (nullifierDb w)).

(** Modelled from the spec: [{commitHash -> payload}] is appended to the
    commit records. *)
Definition saveCommit (commitHash : Hash) (txDataToSign : option TxData) : M unit :=
  modify (fun w =>
    set_commitsDb (commitsDb w ++ [mkCommitRecord commitHash txDataToSign]) w) ;;
  emit (ESaveCommit commitHash txDataToSign).

(** ** The commitment tree (class Timber) *)

(** Modelled from the spec: the tree before any leaf, [new Timber()]. *)
Definition emptyTimber : Timber := mkTimber ZERO [] 0.

(** Modelled from the spec: [statelessUpdate(tree, orderedLeaves)] computes
    a new tree value from the frontier, without touching the argument; the
    hashing itself is [updateNodes]. *)
Definition statelessUpdate (env : Env) (t : Timber) (leaves : list Hash) : Timber :=
  let '(r, f) := updateNodes env leaves (tLeafCount t) (tFrontier t) in
  mkTimber r f (tLeafCount t + Z.of_nat (List.length leaves)).

(** Modelled from the spec: the tree saved last, the empty tree before any
    block. *)
Definition latestTimber (ts : list TreeRecord) : Timber :=
  match rev ts with
  | [] => emptyTimber
  | r :: _ => tTree r
  end.

(** Modelled from the spec: [getLatestTree] of services/database.mjs. *)
Definition getLatestTree : M Timber := gets (fun w => latestTimber (timberDb w)).

(** Modelled from the spec: one snapshot is kept per processed block, in
    the order the blocks were processed. *)
Definition saveTree (blockNumber : Z) (blockNumberL2 : N) (t : Timber) : M unit :=
  modify (fun w =>
    set_timberDb (timberDb w ++ [mkTreeRecord blockNumber blockNumberL2 t]) w) ;;
  emit (ESaveTree blockNumberL2 t).

(** Modelled from the spec: the snapshot with the given root, [None] when
    there is none. *)
Definition getTreeByRoot (r : Hash) : M (option Timber) :=
  gets (fun w => option_map tTree (find (fun t => tRoot (tTree t) =? r) (timberDb w))).

(** ** services/challenges.mjs *)

Definition startMakingChallenges : M unit :=
  logger LInfo "Challenges ON" ;;
  modify (set_makeChallenges true).

Definition stopMakingChallenges : M unit :=
  logger LInfo "Challenges OFF" ;;
  modify (set_makeChallenges false).

(** One evaluation of [!ws || ws.readyState !== WebSocket.OPEN]: the
    answer is the next reading of the socket. *)
Definition wsIsOpen (env : Env) : M bool :=
  fun w => (Normal (wsOpen env (wsReads w)), set_wsReads (S (wsReads w)) w).

Definition setTimeout (ms : Z) : M unit := emit (ESetTimeout ms).

Definition wsSend (m : WsMessage) : M unit := emit (EWsSend m).

(** [await x] of a value that an external library computed or threw. *)
Definition await {A} (c : Completion A) : M A := fun w => (c, w).

(** The polling loop shared by [commitToChallenge] and [revealChallenge]:
    [[
    let tryCount = 0;
    while (!ws || ws.readyState !== WebSocket.OPEN) {
      await new Promise(resolve => setTimeout(resolve, 3000));
      logger.warn(warning);
      if (tryCount++ > 100) throw new Error(failure);
    }
    ]]
    [tryCount] is compared before it is incremented. *)
Fixpoint waitForChallenger (env : Env) (fuel : nat) (warning failure : string)
    (tryCount : Z) : M unit :=
  match fuel with
  | O => throw FuelExhausted
  | S fuel' =>
      open <- wsIsOpen env ;;
      if open then ret tt
      else
        setTimeout 3000 ;;
        logger LWarn warning ;;
        if tryCount >? 100 then throw (JsError failure)
        else waitForChallenger env fuel' warning failure (tryCount + 1)
  end.

(** The loop runs its body at most 102 times. *)
Definition pollFuel : nat := 102.

Definition commitToChallenge (env : Env) (txDataToSign : option TxData) : M unit :=
  commitHash <- await (soliditySha3 env txDataToSign) ;;
  let commitToSign := commitToChallengeCall commitHash in
  logger LDebug
    "raw transaction for committing to challenge has been sent to be signed and submitted" ;;
  saveCommit commitHash txDataToSign ;;
  waitForChallenger env pollFuel
    "Websocket to challenger is closed for commit.  Waiting for challenger to reconnect"
    "Websocket to challenger has failed" 0 ;;
  wsSend (mkWsMessage "commit" (Some commitToSign)).

Definition revealChallenge (env : Env) (txDataToSign : option TxData) : M unit :=
  logger LDebug "raw challenge transaction has been sent to be signed and submitted" ;;
  waitForChallenger env pollFuel
    "Websocket to challenger is closed for reveal.  Waiting for challenger to reconnect"
    "Websocket to $challenger has failed" 0 ;;
  wsSend (mkWsMessage "challenge" txDataToSign).

(** Calling an [async] function without [await]: the promise is left to
    the scheduler and the caller goes on. *)
Definition spawn (t : Task) : M unit :=
  modify (fun w => set_tasks (tasks w ++ [t]) w).

(** [(await rand(32)).hex(32)] *)
Definition rand32 (env : Env) : M Hash :=
  fun w => (Normal (rand env (saltsDrawn w)), set_saltsDrawn (S (saltsDrawn w)) w).

(** [Block.buildSolidityStruct(b)] of a stored document, which destructures
    its argument: [null] or [undefined] is a TypeError. *)
Definition buildSolidityStruct (b : option StoredBlock) : M Block :=
  match b with
  | Some b => ret (storedBlock b)
  | None => throw (JsTypeError "Cannot destructure property of null")
  end.

(** The first pair [[txIndex, nullifierIndex]] of the transactions that
    hold the nullifier [n], as the destructuring of the flattened array
    gives it; [undefined] twice when there is none. *)
Definition nullifierPosition (txs : list Transaction) (n : Hash) : option Z * option Z :=
  match filter (fun idxs => snd idxs >=? 0)
          (mapi (fun t txIndex => (txIndex, findIndex (Z.eqb n) (nullifiers t))) txs) with
  | [] => (None, None)
  | (txIdx, nIdx) :: _ => (Some txIdx, Some nIdx)
  end.

Fixpoint mapM {A B} (f : A -> M B) (xs : list A) : M (list B) :=
  match xs with
  | [] => ret []
  | x :: xs' => y <- f x ;; ys <- mapM f xs' ;; ret (y :: ys)
  end.

(** [case 0]: challenge wrong root. When the block two before the
    challenged one is not found, the source assigns to a property of
    [null]: [if (priorPriorBlock === null) priorPriorBlock.root = ZERO]. *)
Definition challengeIncorrectRoot (env : Env) (block : Block)
    (transactions : list Transaction) (salt : Hash) : M (option TxData) :=
  logger LDebug "Challenging incorrect root" ;;
  priorBlock <- getBlockByBlockNumberL2 (Z.of_N (blockNumberL2 block) - 1) ;;
  match priorBlock with
  | None =>
      throw (JsError (String.append "Could not find prior block with block number "
                        (showZ (Z.of_N (blockNumberL2 block) - 1))))
  | Some priorBlock =>
      priorBlockTransactions <-
        getTransactionsByTransactionHashes (transactionHashes (storedBlock priorBlock)) ;;
      priorPriorBlock <- getBlockByBlockNumberL2 (Z.of_N (blockNumberL2 block) - 2) ;;
      match priorPriorBlock with
      | None => throw (JsTypeError "Cannot set properties of null (setting 'root')")
      | Some priorPriorBlock =>
          priorPriorTree <- getTreeByRoot (root (storedBlock priorPriorBlock)) ;;
          match priorPriorTree with
          | None => throw (JsTypeError "Cannot read properties of null (reading 'frontier')")
          | Some priorPriorTree =>
              let padding :=
                TIMBER_HEIGHT env - Z.of_nat (List.length (tFrontier priorPriorTree)) + 1 in
              if padding <? 0 then throw (JsRangeError "Invalid array length")
              else
                let frontierToValidatePreviousBlock :=
                  tFrontier priorPriorTree ++ repeat ZERO (Z.to_nat padding) in
                ret (Some (challengeNewRootCorrect
                             (storedBlock priorBlock) priorBlockTransactions
                             frontierToValidatePreviousBlock block transactions salt))
          end
      end
  end.

(** [case 1]: challenge duplicate transaction. *)
Definition challengeDuplicateTransaction (block : Block)
    (transactions : list Transaction) (err : BlockError) (salt : Hash)
  : M (option TxData) :=
  let transactionIndex1 := transactionHashIndex (metadata err) in
  let transactionHash1 := mTransactionHash (metadata err) in
  found <- getBlockByTransactionHash transactionHash1 ;;
  match filter (fun b => negb (blockHash (storedBlock b) =? blockHash block)) found with
  | [] => throw (JsTypeError "Cannot read properties of undefined (reading 'transactionHashes')")
  | block2 :: _ =>
      transactions2 <-
        getTransactionsByTransactionHashes (transactionHashes (storedBlock block2)) ;;
      let transactionIndex2 := indexOf (map transactionHash transactions2) transactionHash1 in
      if transactionIndex2 =? -1 then throw (JsError "Could not find duplicate transaction")
      else ret (Some (challengeNoDuplicateTransaction
                        block (storedBlock block2) transactions transactions2
                        transactionIndex1 transactionIndex2 salt))
  end.

(** [case 2]: invalid transaction type. *)
Definition challengeInvalidTransactionType (block : Block)
    (transactions : list Transaction) (err : BlockError) (salt : Hash)
  : M (option TxData) :=
  let transactionIndex := transactionHashIndex (metadata err) in
  let txDataToSign := challengeTransactionType block transactions transactionIndex salt in
  logger LDebug "returning raw transaction" ;;
  logger LSilly "raw transaction is" ;;
  ret (Some txDataToSign).

(** [case 3]: historic root is incorrect. *)
Definition challengeIncorrectHistoricRoot (block : Block)
    (transactions : list Transaction) (err : BlockError) (salt : Hash)
  : M (option TxData) :=
  let transactionIndex := transactionHashIndex (metadata err) in
  ret (Some (challengeHistoricRoot block transactions transactionIndex salt)).

(** [case 4]: proof does not verify. *)
Definition challengeProofDoesNotVerify (block : Block)
    (transactions : list Transaction) (err : BlockError) (salt : Hash)
  : M (option TxData) :=
  let transactionIndex := transactionHashIndex (metadata err) in
  match at_index transactions transactionIndex with
  | None => throw (JsTypeError "Cannot read properties of undefined (reading 'proof')")
  | Some tx =>
      let uncompressedProof := proof tx in
      if String.eqb (transactionType tx) "0" then
        ret (Some (challengeProofVerification
                     block transactions transactionIndex [] uncompressedProof salt))
      else if String.eqb (transactionType tx) "2" then
        historicInputs <-
          mapM (fun b =>
                  historicBlock <- getBlockByBlockNumberL2 b ;;
                  historicTxs <- getTransactionsByTransactionHashes (transactionHashes block) ;;
                  ret (historicBlock, historicTxs))
               (historicRootBlockNumberL2 tx) ;;
        match historicInputs with
        | historicInput1 :: historicInput2 :: _ =>
            historicBlock1 <- buildSolidityStruct (fst historicInput1) ;;
            historicBlock2 <- buildSolidityStruct (fst historicInput2) ;;
            ret (Some (challengeProofVerification
                         block transactions transactionIndex
                         [(historicBlock1, snd historicInput1);
                          (historicBlock2, snd historicInput2)]
                         uncompressedProof salt))
        | _ =>
            throw (JsTypeError "Cannot read properties of undefined (reading 'historicBlock')")
        end
      else
        blockL2ContainingHistoricRoot <-
          match historicRootBlockNumberL2 tx with
          | b :: _ => getBlockByBlockNumberL2 b
          | [] => ret None
          end ;;
        match blockL2ContainingHistoricRoot with
        | None => throw (JsTypeError "Cannot read properties of null (reading 'transactionHashes')")
        | Some historicBlock =>
            transactionsOfblockL2ContainingHistoricRoot <-
              getTransactionsByTransactionHashes (transactionHashes (storedBlock historicBlock)) ;;
            ret (Some (challengeProofVerification
                         block transactions transactionIndex
                         [(storedBlock historicBlock, transactionsOfblockL2ContainingHistoricRoot)]
                         uncompressedProof salt))
        end
  end.

(** [case 6]: challenge duplicate nullifier. The stored nullifier picked
    is the first one of the collection that the block also holds. *)
Definition challengeDuplicateNullifier (block : Block)
    (transactions : list Transaction) (salt : Hash) : M (option TxData) :=
  storedMinedNullifiers <- retrieveMinedNullifiers ;;
  let blockNullifiers := flat_map nullifiers transactions in
  let alreadyMinedNullifiers :=
    filter (fun sNull => includes blockNullifiers (hash sNull)) storedMinedNullifiers in
  match alreadyMinedNullifiers with
  | [] => ret None
  | n :: _ =>
      oldBlock <-
        match nBlockHash n with
        | Some h => getBlockByBlockHash h
        | None => ret None
        end ;;
      match oldBlock with
      | None => throw (JsTypeError "Cannot read properties of null (reading 'transactionHashes')")
      | Some oldBlock =>
          oldBlockTransactions <-
            getTransactionsByTransactionHashes (transactionHashes (storedBlock oldBlock)) ;;
          let '(oldTxIdx, oldNullifierIdx) := nullifierPosition oldBlockTransactions (hash n) in
          let '(currentTxIdx, currentNullifierIdx) := nullifierPosition transactions (hash n) in
          ret (Some (challengeNullifier
                       block transactions currentTxIdx currentNullifierIdx
                       (storedBlock oldBlock) oldBlockTransactions oldTxIdx oldNullifierIdx
                       salt))
      end
  end.

(** [case 7]: challenge incorrect leaf count. *)
Definition challengeIncorrectLeafCount (block : Block)
    (transactions : list Transaction) (salt : Hash) : M (option TxData) :=
  priorBlockL2 <- getBlockByBlockNumberL2 (Z.of_N (blockNumberL2 block) - 1) ;;
  match priorBlockL2 with
  | None => throw (JsTypeError "Cannot read properties of null (reading 'transactionHashes')")
  | Some priorBlockL2 =>
      priorBlockTransactions <-
        getTransactionsByTransactionHashes (transactionHashes (storedBlock priorBlockL2)) ;;
      ret (Some (challengeLeafCountCorrect
                   (storedBlock priorBlockL2) priorBlockTransactions block transactions salt))
  end.

(** The [switch (err.code)] of [createChallenge]; [None] is the
    [txDataToSign] that was declared and never assigned. *)
Definition buildChallenge (env : Env) (block : Block)
    (transactions : list Transaction) (err : BlockError) (salt : Hash)
  : M (option TxData) :=
  match code err with
  | 0 => challengeIncorrectRoot env block transactions salt
  | 1 => challengeDuplicateTransaction block transactions err salt
  | 2 => challengeInvalidTransactionType block transactions err salt
  | 3 => challengeIncorrectHistoricRoot block transactions err salt
  | 4 => challengeProofDoesNotVerify block transactions err salt
  | 6 => challengeDuplicateNullifier block transactions salt
  | 7 => challengeIncorrectLeafCount block transactions salt
  | _ => ret None
  end.

Definition createChallenge (env : Env) (block : Block)
    (transactions : list Transaction) (err : BlockError) : M unit :=
  enabled <- gets makeChallenges ;;
  if enabled then
    salt <- rand32 env ;;
    txDataToSign <- buildChallenge env block transactions err salt ;;
    spawn (CommitTask txDataToSign)
  else
    logger LInfo
      "Faulty block detected. Don't submit new blocks until the faulty blocks are removed".

(** ** event-handlers/block-proposed.mjs *)

(** Modelled from the spec: services/check-block.mjs is missing. The
    checker is a pure decision function over the candidate block and the
    current store, tree and nullifier ledger: it answers, or throws a
    BlockError, and never mutates state. The call is recorded in the
    history. *)
Definition runCheckBlock (env : Env) (block : Block) (transactions : list Transaction)
  : M unit :=
  emit (ECheckBlock (blockHash block)) ;;
  (fun w => (checkBlock env w block transactions, w)).

Definition blockProposedEventHandler (env : Env) (currentBlockCount : Z)
    (transactionHashL1 : Hash) (block : Block) (transactions : list Transaction)
  : M unit :=
  logger LInfo "Received BlockProposed event" ;;
  tryCatch
    (saveBlock (mkStoredBlock (Some currentBlockCount) transactionHashL1 block) ;;
     stampNullifiers
       (flat_map (fun tx => filter (fun nulls => negb (nulls =? 0)) (nullifiers tx))
                 transactions)
       (blockHash block) ;;
     removeTransactionsFromMemPool block ;;
     latestTree <- getLatestTree ;;
     let blockCommitments :=
       flat_map (fun t => filter (fun c => negb (c =? ZERO)) (commitments t)) transactions in
     let updatedTimber := statelessUpdate env latestTree blockCommitments in
     saveTree currentBlockCount (blockNumberL2 block) updatedTimber ;;
     logger LDebug "Saving tree with block number" ;;
     runCheckBlock env block transactions ;;
     logger LInfo "Block Checker - Block was valid")
    (fun err =>
       match err with
       | JsBlockError e =>
           logger LWarn "Block Checker - Block invalid" ;;
           createChallenge env block transactions e
       | _ =>
           logger LError (thrownToString err) ;;
           throw (JsError (thrownToString err))
       end).

(** ** Handlers whose files are missing *)

(** Modelled from the spec: the lookup of a commit record by its hash. *)
Definition getCommit (commitHash : Hash) : M (option CommitRecord) :=
  gets (fun w => find (fun c => cCommitHash c =? commitHash) (commitsDb w)).

(** Modelled from the spec: the challenge-commit event handler is
    missing. The confirmation that a commit transaction is mined
    is observed, and only then is the payload kept under that commit hash
    revealed; a commit that is not ours is ignored. *)
Definition committedToChallengeEventHandler (env : Env) (commitHash : Hash) : M unit :=
  emit (ECommitMined commitHash) ;;
  found <- getCommit commitHash ;;
  match found with
  | None => ret tt
  | Some c => revealChallenge env (cTxDataToSign c)
  end.

(** Modelled from the spec: the snapshots kept once the tree is rolled back
    to just before the block numbered [l2] was appended: those saved before
    the block's own (latest) snapshot. [None] when the block has no
    snapshot. *)
Fixpoint snapshotsBefore (l2 : N) (ts : list TreeRecord) : option (list TreeRecord) :=
  match ts with
  | [] => None
  | t :: ts' =>
      match snapshotsBefore l2 ts' with
      | Some pre => Some (t :: pre)
      | None => if (tBlockNumberL2 t =? l2)%N then Some [] else None
      end
  end.

(** Modelled from the spec: the block keeps its document and loses its
    layer-1 reference. *)
Definition clearBlockNumberL1 (h : Hash) (b : StoredBlock) : StoredBlock :=
  if blockHash (storedBlock b) =? h
  then mkStoredBlock None (transactionHashL1 b) (storedBlock b)
  else b.

(** Modelled from the spec: the handler of a removed block-proposed event
    is missing. On Remove(blockHash): locate the block
    (absence is a fatal inconsistency); set its layer-1 reference to null;
    unstamp its nullifiers; roll the tree back to the snapshot recorded
    immediately before that block's commitments were appended (no snapshot
    is a fatal tree inconsistency). *)
Definition removeBlockProposedEventHandler (h : Hash) : M unit :=
  found <- getBlockByBlockHash h ;;
  match found with
  | None => throw (JsError "Could not find the block of a removed BlockProposed event")
  | Some b =>
      modify (fun w => set_blocks (map (clearBlockNumberL1 h) (blocks w)) w) ;;
      unstampNullifiers h ;;
      snapshots <- gets timberDb ;;
      match snapshotsBefore (blockNumberL2 (storedBlock b)) snapshots with
      | None => throw (JsError "TreeInconsistencyError: no snapshot to roll back to")
      | Some kept => modify (set_timberDb kept)
      end
  end.

(** Modelled from the spec: code 6 of the block checker, a nullifier of
    the block is live-stamped by a different block. *)
Definition liveConflicts (w : World) (block : Block) (n : Hash) : list Hash :=
  flat_map (fun r =>
    match nBlockHash r with
    | Some h =>
        if (hash r =? n) && negb (h =? blockHash block)
           && existsb (fun b => (blockHash (storedBlock b) =? h)
                                && match blockNumber b with Some _ => true | None => false end)
                      (blocks w)
        then [h] else []
    | None => []
    end) (nullifierDb w).

Definition checkDuplicateNullifier (w : World) (block : Block)
    (transactions : list Transaction) : Completion unit :=
  if existsb (fun n => negb (n =? ZERO)
                       && match liveConflicts w block n with [] => false | _ => true end)
             (flat_map nullifiers transactions)
  then Throw (JsBlockError (mkBlockError 6 "duplicate nullifier" (mkMetadata 0 0)))
  else Normal tt.

(** ** The event loop *)

Inductive Input :=
| BlockProposed (currentBlockCount : Z) (transactionHashL1 : Hash)
    (block : Block) (transactions : list Transaction)
| BlockProposedRemoved (blockHash : Hash)
| CommittedToChallenge (commitHash : Hash)
| StartMakingChallenges
| StopMakingChallenges
| RunTask (i : nat).

(** A promise nobody awaits: what it throws is an unhandled rejection. *)
Definition runTask (env : Env) (t : Task) : M unit :=
  tryCatch
    match t with
    | CommitTask txDataToSign => commitToChallenge env txDataToSign
    end
    (fun e => modify (fun w => set_unhandled (unhandled w ++ [e]) w)).

Fixpoint removeNth {A} (i : nat) (xs : list A) : list A :=
  match xs, i with
  | [], _ => []
  | _ :: xs', O => xs'
  | x :: xs', S i' => x :: removeNth i' xs'
  end.

Definition handle (env : Env) (i : Input) : M unit :=
  match i with
  | BlockProposed n h block transactions =>
      blockProposedEventHandler env n h block transactions
  | BlockProposedRemoved h => removeBlockProposedEventHandler h
  | CommittedToChallenge h => committedToChallengeEventHandler env h
  | StartMakingChallenges => startMakingChallenges
  | StopMakingChallenges => stopMakingChallenges
  | RunTask i =>
      pending <- gets tasks ;;
      match nth_error pending i with
      | None => ret tt
      | Some t => modify (set_tasks (removeNth i pending)) ;; runTask env t
      end
  end.

(** Events and scheduler choices are taken one at a time, in delivery
    order; a handler that throws leaves the world as it was at the throw. *)
Fixpoint run (env : Env) (inputs : list Input) (w : World) : World :=
  match inputs with
  | [] => w
  | i :: rest => run env rest (snd (handle env i w))
  end.

(** ** Auxiliary definitions for the statements *)

(** The effects of [k] turns of the polling loop. *)
Fixpoint polls (k : nat) (warning : string) : list Effect :=
  match k with
  | O => []
  | S k' => ESetTimeout 3000 :: ELog LWarn warning :: polls k' warning
  end.

(** How many of the next [fuel] readings of the socket, starting with
    reading number [from], are closed before the first open one. *)
Fixpoint closedReads (env : Env) (from fuel : nat) : nat :=
  match fuel with
  | O => O
  | S fuel' => if wsOpen env from then O else S (closedReads env (S from) fuel')
  end.

(** The world in which [blockProposedEventHandler] calls the checker: the
    block is saved, its nullifiers are stamped, its transactions are out
    of the mempool and the updated tree is saved. *)
Definition worldAtCheck (env : Env) (currentBlockCount : Z) (transactionHashL1 : Hash)
    (block : Block) (transactions : list Transaction) (w : World) : World :=
  let stamped :=
    flat_map (fun tx => filter (fun nulls => negb (nulls =? 0)) (nullifiers tx))
             transactions in
  let updatedTimber :=
    statelessUpdate env (latestTimber (timberDb w))
      (flat_map (fun t => filter (fun c => negb (c =? ZERO)) (commitments t)) transactions) in
  mkWorld
    (upsertBlock (mkStoredBlock (Some currentBlockCount) transactionHashL1 block) (blocks w))
    (transactionsDb w)
    (fold_left (stampOne (blockHash block)) stamped (nullifierDb w))
    (timberDb w ++ [mkTreeRecord currentBlockCount (blockNumberL2 block) updatedTimber])
    (filter (fun h => negb (includes (transactionHashes block) h)) (mempool w))
    (commitsDb w) (makeChallenges w) (wsReads w) (saltsDrawn w) (tasks w) (unhandled w)
    (trace w ++
       [ELog LInfo "Received BlockProposed event";
        ESaveBlock (blockHash block);
        EStampNullifiers stamped (blockHash block);
        ERemoveTransactionsFromMemPool (blockHash block);
        ESaveTree (blockNumberL2 block) updatedTimber;
        ELog LDebug "Saving tree with block number";
        ECheckBlock (blockHash block)]).

Definition addLog (lvl : LogLevel) (msg : string) (w : World) : World :=
  set_trace (trace w ++ [ELog lvl msg]) w.

(** Effects that are neither a message on the websocket, nor a commit
    record, nor a commit confirmation. *)
Definition quiet (e : Effect) : Prop :=
  match e with
  | EWsSend _ | ESaveCommit _ _ | ECommitMined _ => False
  | _ => True
  end.

(** [m] leaves the commit records alone and adds only quiet effects to the
    history. *)
Definition quietly {A} (m : M A) : Prop :=
  forall w, commitsDb (snd (m w)) = commitsDb w /\
            exists t, trace (snd (m w)) = trace w ++ t /\ Forall quiet t.

(** [w] after [reads] more readings of the socket and the effects [es]. *)
Definition advance (reads : nat) (es : list Effect) (w : World) : World :=
  set_wsReads (wsReads w + reads) (set_trace (trace w ++ es) w).

(** [w] with one more commit record. *)
Definition withCommit (commitHash : Hash) (txDataToSign : option TxData) (w : World)
  : World :=
  set_commitsDb (commitsDb w ++ [mkCommitRecord commitHash txDataToSign]) w.

Definition commitMessage (commitHash : Hash) : WsMessage :=
  mkWsMessage "commit" (Some (commitToChallengeCall commitHash)).

Definition commitWarning : string :=
  "Websocket to challenger is closed for commit.  Waiting for challenger to reconnect".

Definition revealWarning : string :=
  "Websocket to challenger is closed for reveal.  Waiting for challenger to reconnect".

Definition commitDebug : string :=
  "raw transaction for committing to challenge has been sent to be signed and submitted".

Definition revealDebug : string :=
  "raw challenge transaction has been sent to be signed and submitted".

(** The order the coordinator owes to its messages: a commit message for
    the hash [h] comes after the record [{h -> payload}] was saved, [h]
    being the hash of that payload; a reveal message comes after the save
    of a commit record holding its payload and after the confirmation that
    this very commit was mined. [pre] is what happened before [e]. *)
Definition inOrder (env : Env) (pre : list Effect) (e : Effect) : Prop :=
  match e with
  | EWsSend m =>
      (msgType m = "commit" /\
       exists h tx, msgTxDataToSign m = Some (commitToChallengeCall h) /\
                    soliditySha3 env tx = Normal h /\
                    In (ESaveCommit h tx) pre)
      \/
      (msgType m = "challenge" /\
       exists h, In (ESaveCommit h (msgTxDataToSign m)) pre /\
                 In (ECommitMined h) pre)
  | _ => True
  end.

(** Every effect of [t], performed after [pre], is in order. *)
Fixpoint orderedFrom (env : Env) (pre t : list Effect) : Prop :=
  match t with
  | [] => True
  | e :: t' => inOrder env pre e /\ orderedFrom env (pre ++ [e]) t'
  end.

(** Every commit record of the store was saved at some point of the
    history. *)
Definition recorded (w : World) : Prop :=
  forall c, In c (commitsDb w) ->
            In (ESaveCommit (cCommitHash c) (cTxDataToSign c)) (trace w).

(** Every commit record saved at some point of the history is still in
    the store. *)
Definition persisted (w : World) : Prop :=
  forall h tx, In (ESaveCommit h tx) (trace w) -> In (mkCommitRecord h tx) (commitsDb w).

Definition coordinated (env : Env) (w : World) : Prop :=
  orderedFrom env [] (trace w) /\ recorded w /\ persisted w.

(** [m] keeps the coordinator's messages in order. *)
Definition keeps {A} (env : Env) (m : M A) : Prop :=
  forall w, coordinated env w -> coordinated env (snd (m w)).

(** [w'] differs from [w] at most by the salts drawn and by the history. *)
Definition sameStore (w w' : World) : Prop :=
  blocks w' = blocks w /\ transactionsDb w' = transactionsDb w /\
  nullifierDb w' = nullifierDb w /\ timberDb w' = timberDb w /\
  mempool w' = mempool w /\ commitsDb w' = commitsDb w /\
  makeChallenges w' = makeChallenges w /\ wsReads w' = wsReads w /\
  tasks w' = tasks w /\ unhandled w' = unhandled w.

(** [m] only reads the store. *)
Definition readonly {A} (m : M A) : Prop := forall w, sameStore w (snd (m w)).

(** The commit messages of a history. *)
Definition commitMessages (t : list Effect) : list WsMessage :=
  flat_map (fun e =>
    match e with
    | EWsSend m => if String.eqb (msgType m) "commit" then [m] else []
    | _ => []
    end) t.

(** One delivery of an invalidity to the coordinator, followed by the run
    of the commit task it started (the last of the pending tasks). *)
Definition deliver (env : Env) (block : Block) (transactions : list Transaction)
    (err : BlockError) (w : World) : World :=
  let w1 := snd (createChallenge env block transactions err w) in
  snd (handle env (RunTask (List.length (tasks w1) - 1)) w1).



(** ** Concrete worlds for the examples *)

Definition saltOf (tx : TxData) : Hash :=
  match tx with
  | challengeNewRootCorrect _ _ _ _ _ salt => salt
  | challengeNoDuplicateTransaction _ _ _ _ _ _ salt => salt
  | challengeTransactionType _ _ _ salt => salt
  | challengeHistoricRoot _ _ _ salt => salt
  | challengeProofVerification _ _ _ _ _ salt => salt
  | challengeNullifier _ _ _ _ _ _ _ _ salt => salt
  | challengeLeafCountCorrect _ _ _ _ salt => salt
  | commitToChallengeCall h => h
  end.

(** A stand-in for [soliditySha3] in the examples: distinct salts give
    distinct hashes, and bytes that are [undefined] are refused. *)
Definition demoSha3 (tx : option TxData) : Completion Hash :=
  match tx with
  | Some t => Normal (2 * saltOf t + 1)
  | None => Throw (JsTypeError "Cannot read properties of undefined (reading 'replace')")
  end.

Definition demoEnv (open : nat -> bool)
    (checker : World -> Block -> list Transaction -> Completion unit) : Env :=
  mkEnv open (fun n => 1000 + Z.of_nat n) demoSha3 32
        (fun leaves count frontier => (count + Z.of_nat (List.length leaves), frontier))
        checker.

Definition alwaysOpen : nat -> bool := fun _ => true.
Definition neverOpen : nat -> bool := fun _ => false.

Definition accept : World -> Block -> list Transaction -> Completion unit :=
  fun _ _ _ => Normal tt.

Definition rejectWith (c : Z) : World -> Block -> list Transaction -> Completion unit :=
  fun _ _ _ => Throw (JsBlockError (mkBlockError c "invalid block" (mkMetadata 0 0))).

(** A deposit and the first block that holds it. *)
Definition tx1 : Transaction := mkTransaction 31 "0" [101; 0] [0; 0] [] [1; 2].
Definition block0 : Block := mkBlock 7 4001 0 0 0 500 [31].

(** A reorg followed by a double spend: [txY] spends the nullifier 7 in
    the block [blockA], which is removed; [txX] spends the nullifier 9 in
    [blockB]; [txYX] of [blockC] spends 7 again (re-mined) and 9 a second
    time. *)
Definition txY : Transaction := mkTransaction 41 "1" [111; 0] [7; 0] [0] [1; 2].
Definition txX : Transaction := mkTransaction 42 "1" [112; 0] [9; 0] [0] [1; 2].
Definition txYX : Transaction := mkTransaction 43 "2" [113; 114] [7; 9] [0; 0] [1; 2].
Definition blockA : Block := mkBlock 7 4002 0 0 0 600 [41].
Definition blockB : Block := mkBlock 7 4003 0 0 0 601 [42].
Definition blockC : Block := mkBlock 8 4004 1 1 601 602 [43].

Definition doubleSpendStart : World :=
  mkWorld [] [txY; txX; txYX] [] [] [] [] true 0 0 [] [] [].

Definition doubleSpendInputs : list Input :=
  [BlockProposed 10 900 blockA [txY];
   BlockProposedRemoved 600;
   BlockProposed 11 901 blockB [txX];
   BlockProposed 12 902 blockC [txYX]].

(** An invalid block (the checker answers with code 2), the run of the
    commit task, and the confirmation that the commit was mined. *)
Definition challengeEnv : Env := demoEnv alwaysOpen (rejectWith 2).

Definition challengeInputs : list Input :=
  [BlockProposed 10 900 block0 [tx1]; RunTask 0; CommittedToChallenge 2001].

Definition challengePayload : TxData := challengeTransactionType block0 [tx1] 0 1000.

(** The nullifier [n] has a record that carries a stamp. *)
Definition stampedIn (db : list NullifierRecord) (n : Hash) : Prop :=
  exists r, In r db /\ hash r = n /\ nBlockHash r <> None.

Definition faultyBlockNotice : string :=
  "Faulty block detected. Don't submit new blocks until the faulty blocks are removed".

(** The message of the guard on the prior block in [case 0]. *)
Definition priorBlockNotFound (block : Block) : string :=
  String.append "Could not find prior block with block number "
    (showZ (Z.of_N (blockNumberL2 block) - 1)).



(** ** Auxiliary definitions for the further properties *)

(** [m] changes nothing but the history, to which it adds log entries. *)
Definition isLog (e : Effect) : Prop :=
  match e with
  | ELog _ _ => True
  | _ => False
  end.

Definition logsOnly {A} (m : M A) : Prop :=
  forall w, exists t, snd (m w) = set_trace (trace w ++ t) w /\ Forall isLog t.

(** Whatever [m] returns satisfies [P]. *)
Definition returns {A} (P : A -> Prop) (m : M A) : Prop :=
  forall w a w', m w = (Normal a, w') -> P a.

(** The non-zero nullifiers of a block's transactions, as the handler
    passes them to [stampNullifiers]. *)
Definition nonZeroNullifiers (transactions : list Transaction) : list Hash :=
  flat_map (fun tx => filter (fun nulls => negb (nulls =? 0)) (nullifiers tx)) transactions.

(** The non-zero commitments of a block's transactions, as the handler
    passes them to [Timber.statelessUpdate]. *)
Definition nonZeroCommitments (transactions : list Transaction) : list Hash :=
  flat_map (fun t => filter (fun c => negb (c =? ZERO)) (commitments t)) transactions.

(** The stored transactions of a list of hashes, in the order of the
    hashes. *)
Definition storedTransactions (w : World) (hs : list Hash) : list Transaction :=
  flat_map (fun h =>
    match find (fun t => transactionHash t =? h) (transactionsDb w) with
    | Some t => [t]
    | None => []
    end) hs.

(** The stored block with the L2 block number [n]. *)
Definition blockNumbered (w : World) (n : Z) : option StoredBlock :=
  find (fun b : StoredBlock => Z.of_N (blockNumberL2 (storedBlock b)) =? n) (blocks w).

(** Two blocks that hold the same transaction: [blockD] (hash 700) and
    [blockE] (hash 701) both list the transaction 42. *)
Definition blockD : Block := mkBlock 7 4010 0 0 0 700 [42].
Definition blockE : Block := mkBlock 8 4011 1 1 700 701 [41; 42].

Definition duplicateWorld : World :=
  mkWorld [mkStoredBlock (Some 10) 900 blockD; mkStoredBlock (Some 11) 901 blockE]
          [txY; txX] [] [] [] [] true 0 0 [] [] [].

Definition duplicateError : BlockError := mkBlockError 1 "duplicate transaction" (mkMetadata 1 42).

(** A third block on top of [blockD] and [blockE], and the store with the
    tree snapshot of [blockD]. *)
Definition blockF : Block := mkBlock 9 4012 2 2 701 702 [].

Definition rootWorld : World :=
  set_timberDb [mkTreeRecord 10 0 (mkTimber 4010 [55] 1)] duplicateWorld.

(** The messages put on the websocket by a list of effects. *)
Definition sends (t : list Effect) : list WsMessage :=
  flat_map (fun e => match e with EWsSend m => [m] | _ => [] end) t.

(** The waits of a list of effects, in milliseconds. *)
Definition waits (t : list Effect) : list Z :=
  flat_map (fun e => match e with ESetTimeout ms => [ms] | _ => [] end) t.

Definition isBlockProposed (i : Input) : Prop :=
  match i with
  | BlockProposed _ _ _ _ => True
  | _ => False
  end.

(** The non-zero commitments of the blocks of a list of block-proposed
    events, counted. *)
Fixpoint commitmentsProposed (inputs : list Input) : Z :=
  match inputs with
  | [] => 0
  | BlockProposed _ _ _ transactions :: rest =>
      Z.of_nat (List.length (nonZeroCommitments transactions)) + commitmentsProposed rest
  | _ :: rest => commitmentsProposed rest
  end.

(** ** utils/zokrates-lib verify: the verdict on a run of [zokrates verify] *)

Module Zokrates.

(** A proof object; [proofInputs] is [None] when [proof.inputs] is
    absent. *)
Record ProofJson := mkProofJson {
  proofPoints : list string;
  proofInputs : option (list string) }.

(** What is written to the temporary proof file. *)
Inductive ProofFile :=
| Combined (proof : ProofJson) (inputs : list string)
| AsGiven (proof : ProofJson).

(** [if (!proof.inputs) combinedProof = { proof, inputs };
     else combinedProof = proof;] *)
Definition combinedProof (proof : ProofJson) (inputs : list string) : ProofFile :=
  match proofInputs proof with
  | None => Combined proof inputs
  | Some _ => AsGiven proof
  end.

(** A parameter with a default value. *)
Definition orDefault (d : string) (o : option string) : string :=
  match o with
  | Some x => x
  | None => d
  end.

(** The command line of the child process. *)
Definition args (vkTempFile proofTempFile : string)
    (provingScheme backend curve : option string) : list string :=
  ["verify"; "-v"; vkTempFile; "-j"; proofTempFile;
   "--proving-scheme"; orDefault "g16" provingScheme;
   "--backend"; orDefault "bellman" backend;
   "--curve"; orDefault "bn128" curve].

(** What the child process does, as the listeners see it. *)
Inductive ProcessEvent :=
| StdoutData (data : string)
| StderrData (err : string)
| Close.

(** The promise returned by [verify]. *)
Inductive Promise :=
| Pending
| Resolved (value : bool)
| Rejected (message : string).

(** [resolve] and [reject] settle a pending promise and do nothing to a
    settled one. *)
Definition settle (p outcome : Promise) : Promise :=
  match p with
  | Pending => outcome
  | _ => p
  end.

(** [s.includes(pattern)] *)
Definition includes (s pattern : string) : bool :=
  match String.index 0 pattern s with
  | Some _ => true
  | None => false
  end.

(** [s.slice(s.indexOf(pattern))]; with [indexOf] at -1 the slice is the
    last character. *)
Definition sliceFrom (s pattern : string) : string :=
  match String.index 0 pattern s with
  | Some i => String.substring i (String.length s - i) s
  | None => String.substring (String.length s - 1) 1 s
  end.

Record Run := mkRun {
  output : string;
  promise : Promise;
  unlinked : list string }.

(** The three listeners. *)
Definition onEvent (proofTempFile vkTempFile : string) (r : Run) (e : ProcessEvent)
  : Run :=
  match e with
  | StdoutData data => mkRun (String.append (output r) data) (promise r) (unlinked r)
  | StderrData err =>
      mkRun (output r)
            (settle (promise r) (Rejected (String.append "Verify failed: " err)))
            (unlinked r)
  | Close =>
      let afterPanic :=
        if includes (output r) "panicked"
        then settle (promise r) (Rejected (sliceFrom (output r) "panicked"))
        else promise r in
      let afterPass :=
        if includes (output r) "PASS"
        then settle afterPanic (Resolved true)
        else settle afterPanic (Resolved false) in
      mkRun (output r) afterPass (unlinked r ++ [proofTempFile; vkTempFile])
  end.

Definition start : Run := mkRun "" Pending [].

(** [verify], once the files are written and the process is spawned:
    the state of the promise after the events of the process. *)
Definition verify (proofTempFile vkTempFile : string) (events : list ProcessEvent) : Run :=
  fold_left (onEvent proofTempFile vkTempFile) events start.

(** The text written to stdout by a list of events. *)
Fixpoint stdoutOf (events : list ProcessEvent) : string :=
  match events with
  | [] => ""
  | StdoutData data :: rest => String.append data (stdoutOf rest)
  | _ :: rest => stdoutOf rest
  end.

(** The first chunk written to stderr by a list of events. *)
Fixpoint firstStderr (events : list ProcessEvent) : option string :=
  match events with
  | [] => None
  | StderrData err :: _ => Some err
  | _ :: rest => firstStderr rest
  end.

Definition notClose (e : ProcessEvent) : Prop :=
  match e with
  | Close => False
  | _ => True
  end.

End Zokrates.

(** ** routes/proposer.mjs: POST /transfer *)

Module TransferRoute.

(** What [transactionSubmittedEventHandler] throws. *)
Inductive HandlerError :=
| TransactionError (message : string)
| OtherError (message : string).

Inductive RouteEffect :=
| LogDebug (msg : string)
| LogSilly (msg : string)
| LogWarn (msg : string)
| LogError (msg : string)
| TransactionSubmitted (transaction : Transaction)
| SendStatus (status : Z).

(** The handler of [router.post('/transfer', ...)]. [Number] is the
    JavaScript conversion of the transaction type, [None] when it is not
    an integer; [transactionSubmittedEventHandler] answers [None] when it
    returns. A body without a transaction makes the read of
    [transaction.transactionType] throw inside the [try]. *)
Definition postTransfer
    (Number : string -> option Z)
    (transactionSubmittedEventHandler : Transaction -> option HandlerError)
    (transaction : option Transaction) : list RouteEffect :=
  LogDebug "transfer endpoint received POST" :: LogSilly "With content" ::
  match transaction with
  | None =>
      [LogError "Cannot read properties of undefined (reading 'transactionType')";
       SendStatus 400]
  | Some tx =>
      match Number (transactionType tx) with
      | Some 1 | Some 2 | Some 3 =>
          TransactionSubmitted tx ::
          match transactionSubmittedEventHandler tx with
          | None => [SendStatus 200]
          | Some (TransactionError message) =>
              [LogWarn (String.append "The transaction check failed with error: "
                          (String.append message ". The transaction has been ignored"));
               SendStatus 400]
          | Some (OtherError message) => [LogError message; SendStatus 400]
          end
      | _ => [SendStatus 400]
      end
  end.

Definition statuses (es : list RouteEffect) : list Z :=
  flat_map (fun e => match e with SendStatus s => [s] | _ => [] end) es.

Definition submitted (es : list RouteEffect) : list Transaction :=
  flat_map (fun e => match e with TransactionSubmitted t => [t] | _ => [] end) es.

End TransferRoute.

(** ** cli/lib/nf3.mjs: the client of the websocket *)

Module Nf3.

Record Nf3 := mkNf3 {
  shieldContractAddress : string;
  proposersContractAddress : string;
  challengesContractAddress : string;
  stateContractAddress : string;
  ethereumAddress : string }.

Definition defaultFee : Z := 10.
Definition PROPOSER_BOND : Z := 10000000000000000000.
Definition BLOCK_STAKE : Z := 1000000000000000000.

(** The transaction that [submitTransaction] signs and sends. *)
Record EthTx := mkEthTx {
  to : string;
  data : option TxData;
  value : Z;
  gas : Z;
  gasPrice : Z;
  nonce : Z }.

(** [submitTransaction(unsignedTransaction, contractAddress =
    this.shieldContractAddress, fee = this.defaultFee)]; [nonce] is the
    transaction count of the account. *)
Definition submitTransaction (nf3 : Nf3) (nonce : Z)
    (unsignedTransaction : option TxData)
    (contractAddress : option string) (fee : option Z) : EthTx :=
  mkEthTx
    (match contractAddress with Some a => a | None => shieldContractAddress nf3 end)
    unsignedTransaction
    (match fee with Some f => f | None => defaultFee end)
    10000000 10000000000 nonce.

(** [connection.onmessage] of [startChallenger]. *)
Definition challengerOnMessage (nf3 : Nf3) (nonce : Z) (m : WsMessage) : list EthTx :=
  if String.eqb (msgType m) "challenge"
  then [submitTransaction nf3 nonce (msgTxDataToSign m) (Some (stateContractAddress nf3))
          (Some 0)]
  else [].

(** [connection.onmessage] of [startProposer]. *)
Definition proposerOnMessage (nf3 : Nf3) (nonce : Z) (m : WsMessage) : list EthTx :=
  if String.eqb (msgType m) "block"
  then [submitTransaction nf3 nonce (msgTxDataToSign m) (Some (stateContractAddress nf3))
          (Some BLOCK_STAKE)]
  else [].

End Nf3.

(** Whether a transaction type, as a number, is one that POST /transfer
    accepts. *)
Definition acceptedType (n : option Z) : bool :=
  match n with
  | Some z => (z =? 1) || (z =? 2) || (z =? 3)
  | None => false
  end.

Definition demoNf3 : Nf3.Nf3 := Nf3.mkNf3 "0xShield" "0xProposers" "0xChallenges" "0xState" "0xMe".

(** * Properties *)

(** ** The helpers on small inputs *)

Example findIndex_found : findIndex (Z.eqb 9) [7; 9; 9] = 1.
Proof. reflexivity. Qed.

Example findIndex_absent : findIndex (Z.eqb 5) [7; 9] = -1.
Proof. reflexivity. Qed.

Example at_index_negative : at_index [1; 2] (-1) = None.
Proof. reflexivity. Qed.

Example nullifierPosition_second_transaction :
  nullifierPosition [txX; txYX] 7 = (Some 1, Some 0).
Proof. reflexivity. Qed.

Example nullifierPosition_absent : nullifierPosition [txX] 7 = (None, None).
Proof. reflexivity. Qed.

Example stampOne_new : stampOne 600 [] 7 = [mkNullifierRecord 7 (Some 600)].
Proof. reflexivity. Qed.

Example stampOne_unstamped :
  stampOne 602 [mkNullifierRecord 7 None; mkNullifierRecord 9 (Some 601)] 7
  = [mkNullifierRecord 7 (Some 602); mkNullifierRecord 9 (Some 601)].
Proof. reflexivity. Qed.

Example stampOne_incumbent :
  stampOne 602 [mkNullifierRecord 9 (Some 601)] 9 = [mkNullifierRecord 9 (Some 601)].
Proof. reflexivity. Qed.

Example snapshotsBefore_latest :
  snapshotsBefore 1
    [mkTreeRecord 10 0 emptyTimber; mkTreeRecord 11 1 emptyTimber;
     mkTreeRecord 12 2 emptyTimber]
  = Some [mkTreeRecord 10 0 emptyTimber].
Proof. reflexivity. Qed.

Example snapshotsBefore_missing : snapshotsBefore 5 [mkTreeRecord 10 0 emptyTimber] = None.
Proof. reflexivity. Qed.

Example showZ_minus_one : showZ (-1) = "-1".
Proof. reflexivity. Qed.

(** The loop gives up at the 102nd closed reading, not before. *)
Example polling_gives_up_after_102 :
  let r := waitForChallenger (demoEnv neverOpen accept) pollFuel "w" "f" 0 (emptyWorld true) in
  fst r = Throw (JsError "f") /\ wsReads (snd r) = 102%nat.
Proof. vm_compute. split; reflexivity. Qed.

Example polling_returns_at_the_102nd_reading :
  let env := demoEnv (fun i => Nat.eqb i 101) accept in
  let r := waitForChallenger env pollFuel "w" "f" 0 (emptyWorld true) in
  fst r = Normal tt /\ wsReads (snd r) = 102%nat.
Proof. vm_compute. split; reflexivity. Qed.

(** ** The monad *)

Lemma bind_ret_l {A B} (a : A) (k : A -> M B) w : bind (ret a) k w = k a w.
Proof. reflexivity. Qed.

Lemma bind_throw {A B} (e : Thrown) (k : A -> M B) w : bind (throw e) k w = (Throw e, w).
Proof. reflexivity. Qed.

Lemma bind_assoc {A B C} (m : M A) (k : A -> M B) (k' : B -> M C) w :
  bind (bind m k) k' w = bind m (fun a => bind (k a) k') w.
Proof. unfold bind. destruct (m w) as [[a|e] w']; reflexivity. Qed.

(** Normalise a world built with the setters. *)
Ltac world_simpl :=
  unfold addLog, set_blocks, set_nullifierDb, set_timberDb, set_mempool, set_commitsDb,
    set_makeChallenges, set_wsReads, set_saltsDrawn, set_tasks, set_unhandled, set_trace;
  cbn [blocks transactionsDb nullifierDb timberDb mempool commitsDb makeChallenges
       wsReads saltsDrawn tasks unhandled trace fst snd].

(** Run the monadic plumbing and the store operations symbolically. *)
Ltac run_monad :=
  cbv beta iota zeta delta
    [bind ret throw gets modify emit logger tryCatch await spawn rand32 wsSend
     setTimeout saveBlock stampNullifiers unstampNullifiers
     removeTransactionsFromMemPool getLatestTree saveTree saveCommit getCommit
     getBlockByBlockHash getBlockByBlockNumberL2 getBlockByTransactionHash
     getTransactionsByTransactionHashes retrieveMinedNullifiers getTreeByRoot
     runCheckBlock addLog advance withCommit
     set_blocks set_nullifierDb set_timberDb set_mempool set_commitsDb
     set_makeChallenges set_wsReads set_saltsDrawn set_tasks set_unhandled set_trace
     blocks transactionsDb nullifierDb timberDb mempool commitsDb makeChallenges
     wsReads saltsDrawn tasks unhandled trace fst snd
     storedBlock blockNumber transactionHashL1].

(** ** Quiet computations *)

Lemma quietly_ret {A} (a : A) : quietly (ret a).
Proof. intro w. split; [reflexivity|]. exists []. rewrite app_nil_r. auto. Qed.

Lemma quietly_throw {A} (e : Thrown) : quietly (@throw A e).
Proof. intro w. split; [reflexivity|]. exists []. rewrite app_nil_r. auto. Qed.

Lemma quietly_gets {A} (f : World -> A) : quietly (gets f).
Proof. intro w. split; [reflexivity|]. exists []. rewrite app_nil_r. auto. Qed.

Lemma quietly_bind {A B} (m : M A) (k : A -> M B) :
  quietly m -> (forall a, quietly (k a)) -> quietly (bind m k).
Proof.
  intros Hm Hk w. unfold bind.
  destruct (Hm w) as [Hc [t [Ht Hq]]].
  destruct (m w) as [[a|e] w1]; simpl in *.
  - destruct (Hk a w1) as [Hc' [t' [Ht' Hq']]]. split; [congruence|].
    exists (t ++ t'). rewrite Ht', Ht, app_assoc. split; [reflexivity|].
    apply Forall_app; auto.
  - split; [assumption|]. exists t. auto.
Qed.

Lemma quietly_tryCatch {A} (m : M A) (h : Thrown -> M A) :
  quietly m -> (forall e, quietly (h e)) -> quietly (tryCatch m h).
Proof.
  intros Hm Hh w. unfold tryCatch.
  destruct (Hm w) as [Hc [t [Ht Hq]]].
  destruct (m w) as [[a|e] w1]; simpl in *.
  - split; [assumption|]. exists t. auto.
  - destruct (Hh e w1) as [Hc' [t' [Ht' Hq']]]. split; [congruence|].
    exists (t ++ t'). rewrite Ht', Ht, app_assoc. split; [reflexivity|].
    apply Forall_app; auto.
Qed.

Lemma quietly_emit (e : Effect) : quiet e -> quietly (emit e).
Proof.
  intros He w. split; [reflexivity|]. exists [e]. split; [reflexivity|].
  constructor; auto.
Qed.

Lemma quietly_modify (f : World -> World) :
  (forall w, commitsDb (f w) = commitsDb w) ->
  (forall w, trace (f w) = trace w) ->
  quietly (modify f).
Proof.
  intros Hc Ht w. simpl. split; [apply Hc|]. exists []. rewrite app_nil_r, Ht. auto.
Qed.

Lemma quietly_step {A} (f : World -> Completion A * World) :
  (forall w, commitsDb (snd (f w)) = commitsDb w) ->
  (forall w, trace (snd (f w)) = trace w) ->
  quietly f.
Proof.
  intros Hc Ht w. split; [apply Hc|]. exists []. rewrite app_nil_r, Ht. auto.
Qed.

Ltac quiet_step :=
  match goal with
  | |- forall x, quietly (@?m x) => intro
  | |- quietly (bind _ _) => apply quietly_bind
  | |- quietly (tryCatch _ _) => apply quietly_tryCatch
  | |- quietly (ret _) => apply quietly_ret
  | |- quietly (throw _) => apply quietly_throw
  | |- quietly (gets _) => apply quietly_gets
  | |- quietly (logger _ _) => apply quietly_emit; exact I
  | |- quietly (setTimeout _) => apply quietly_emit; exact I
  | |- quietly (emit _) => apply quietly_emit; exact I
  | |- quietly (modify _) => apply quietly_modify; intro; reflexivity
  | |- quietly (match ?x with _ => _ end) => destruct x
  | |- quietly (let '(_, _) := ?x in _) => destruct x
  end.

Ltac quiet_crush := repeat quiet_step.

(** ** The polling loop *)

Lemma polls_quiet k warning : Forall quiet (polls k warning).
Proof. induction k; simpl; repeat constructor; auto. Qed.

Lemma polls_length k warning : List.length (polls k warning) = (2 * k)%nat.
Proof. induction k; simpl; [reflexivity|]. rewrite IHk. lia. Qed.

(** The loop, computed: with [fuel] turns left before the cap
    ([tryCount + fuel = 102]), it returns at the first open reading, after
    one timeout and one warning per closed reading, and throws [failure]
    once [fuel] readings in a row were closed. *)
Lemma waitForChallenger_spec env warning failure :
  forall fuel tryCount w,
    (1 <= fuel)%nat ->
    tryCount + Z.of_nat fuel = 102 ->
    waitForChallenger env fuel warning failure tryCount w =
    let k := closedReads env (wsReads w) fuel in
    if (k <? fuel)%nat
    then (Normal tt,
          set_wsReads (wsReads w + k + 1) (set_trace (trace w ++ polls k warning) w))
    else (Throw (JsError failure),
          set_wsReads (wsReads w + fuel) (set_trace (trace w ++ polls fuel warning) w)).
Proof.
  induction fuel as [|fuel IH]; intros tryCount w Hfuel Hcap; [lia|].
  destruct w as [bs txs ns ts mp cs mc reads salts tk un tr].
  cbn [waitForChallenger closedReads wsReads].
  unfold bind at 1. unfold wsIsOpen at 1. cbn [wsReads].
  destruct (wsOpen env reads) eqn:Hopen.
  - unfold ret. world_simpl. cbn. rewrite app_nil_r. f_equal. f_equal. lia.
  - unfold setTimeout, logger, emit, modify, bind at 1 2. cbn [fst snd trace set_trace].
    destruct (tryCount >? 100) eqn:Hcmp.
    + assert (fuel = 0%nat) by lia. subst fuel. unfold throw. world_simpl. cbn.
      rewrite <- app_assoc. cbn. f_equal. f_equal. lia.
    + assert (1 <= fuel)%nat by lia.
      rewrite IH by lia. world_simpl.
      change (S (closedReads env (S reads) fuel) <? S fuel)%nat
        with (closedReads env (S reads) fuel <? fuel)%nat.
      destruct (closedReads env (S reads) fuel <? fuel)%nat.
      * cbn. rewrite <- !app_assoc. cbn. f_equal. f_equal. lia.
      * cbn. rewrite <- !app_assoc. cbn. f_equal. f_equal. lia.
Qed.


Lemma closedReads_all_closed env from fuel :
  (forall i, (i < fuel)%nat -> wsOpen env (from + i) = false) ->
  closedReads env from fuel = fuel.
Proof.
  revert from. induction fuel as [|fuel IH]; intros from H; simpl; [reflexivity|].
  rewrite <- (Nat.add_0_r from) at 1. rewrite H by lia. f_equal. apply IH.
  intros i Hi. replace (S from + i)%nat with (from + S i)%nat by lia. apply H. lia.
Qed.

Lemma closedReads_open_now env from fuel :
  wsOpen env from = true -> closedReads env from (S fuel) = 0%nat.
Proof. intro H. simpl. rewrite H. reflexivity. Qed.

(** With the 102 units of fuel that [commitToChallenge] and
    [revealChallenge] give it, the loop never runs out of fuel. *)
Lemma waitForChallenger_fuel env warning failure w :
  fst (waitForChallenger env pollFuel warning failure 0 w) <> Throw FuelExhausted.
Proof.
  rewrite waitForChallenger_spec by (unfold pollFuel; lia).
  cbv zeta. destruct (_ <? _)%nat; simpl; discriminate.
Qed.

Lemma quietly_waitForChallenger env fuel warning failure tryCount :
  quietly (waitForChallenger env fuel warning failure tryCount).
Proof.
  revert tryCount. induction fuel as [|fuel IH]; intro tryCount; simpl.
  - apply quietly_throw.
  - apply quietly_bind.
    + apply quietly_step; intro; reflexivity.
    + intros []; quiet_crush. apply IH.
Qed.

(** ** [commitToChallenge] and [revealChallenge], computed *)

Lemma commitToChallenge_spec env txDataToSign w :
  commitToChallenge env txDataToSign w =
  match soliditySha3 env txDataToSign with
  | Throw e => (Throw e, w)
  | Normal commitHash =>
      let k := closedReads env (wsReads w) pollFuel in
      if (k <? pollFuel)%nat
      then (Normal tt,
            advance (k + 1)
              (ELog LDebug commitDebug :: ESaveCommit commitHash txDataToSign
                 :: polls k commitWarning ++ [EWsSend (commitMessage commitHash)])
              (withCommit commitHash txDataToSign w))
      else (Throw (JsError "Websocket to challenger has failed"),
            advance pollFuel
              (ELog LDebug commitDebug :: ESaveCommit commitHash txDataToSign
                 :: polls pollFuel commitWarning)
              (withCommit commitHash txDataToSign w))
  end.
Proof.
  unfold commitToChallenge. unfold bind at 1. unfold await.
  destruct (soliditySha3 env txDataToSign) as [h|e]; [|reflexivity].
  unfold bind at 1. unfold logger at 1. unfold emit, modify. cbn [fst snd].
  unfold saveCommit. unfold bind at 1 2. unfold emit, modify. cbn [fst snd].
  unfold bind at 1. rewrite waitForChallenger_spec by (unfold pollFuel; lia).
  cbv zeta. destruct w as [bs txs ns ts mp cs mc reads salts tk un tr].
  world_simpl.
  destruct (closedReads env reads pollFuel <? pollFuel)%nat;
    unfold wsSend, emit, modify, advance, withCommit; world_simpl;
    rewrite <- !app_assoc; f_equal; f_equal; try reflexivity; lia.
Qed.

Lemma revealChallenge_spec env txDataToSign w :
  revealChallenge env txDataToSign w =
  let k := closedReads env (wsReads w) pollFuel in
  if (k <? pollFuel)%nat
  then (Normal tt,
        advance (k + 1)
          (ELog LDebug revealDebug
             :: polls k revealWarning ++ [EWsSend (mkWsMessage "challenge" txDataToSign)])
          w)
  else (Throw (JsError "Websocket to $challenger has failed"),
        advance pollFuel (ELog LDebug revealDebug :: polls pollFuel revealWarning) w).
Proof.
  unfold revealChallenge. unfold bind at 1. unfold logger at 1. unfold emit, modify.
  cbn [fst snd]. unfold bind at 1.
  rewrite waitForChallenger_spec by (unfold pollFuel; lia).
  cbv zeta. destruct w as [bs txs ns ts mp cs mc reads salts tk un tr].
  world_simpl.
  destruct (closedReads env reads pollFuel <? pollFuel)%nat;
    unfold wsSend, emit, modify, advance; world_simpl;
    rewrite <- !app_assoc; f_equal; f_equal; try reflexivity; lia.
Qed.

(** ** What is quiet *)

Lemma quietly_mapM {A B} (f : A -> M B) (xs : list A) :
  (forall x, quietly (f x)) -> quietly (mapM f xs).
Proof. intro Hf. induction xs; simpl; quiet_crush; auto. Qed.

Lemma quietly_challengeIncorrectRoot env block transactions salt :
  quietly (challengeIncorrectRoot env block transactions salt).
Proof.
  unfold challengeIncorrectRoot, getBlockByBlockNumberL2,
    getTransactionsByTransactionHashes, getTreeByRoot. quiet_crush.
Qed.

Lemma quietly_challengeDuplicateTransaction block transactions err salt :
  quietly (challengeDuplicateTransaction block transactions err salt).
Proof.
  unfold challengeDuplicateTransaction, getBlockByTransactionHash,
    getTransactionsByTransactionHashes. quiet_crush.
Qed.

Lemma quietly_challengeInvalidTransactionType block transactions err salt :
  quietly (challengeInvalidTransactionType block transactions err salt).
Proof. unfold challengeInvalidTransactionType. quiet_crush. Qed.

Lemma quietly_challengeIncorrectHistoricRoot block transactions err salt :
  quietly (challengeIncorrectHistoricRoot block transactions err salt).
Proof. unfold challengeIncorrectHistoricRoot. quiet_crush. Qed.

Lemma quietly_challengeProofDoesNotVerify block transactions err salt :
  quietly (challengeProofDoesNotVerify block transactions err salt).
Proof.
  unfold challengeProofDoesNotVerify, buildSolidityStruct, getBlockByBlockNumberL2,
    getTransactionsByTransactionHashes.
  quiet_crush.
  apply quietly_mapM. quiet_crush.
Qed.

Lemma quietly_challengeDuplicateNullifier block transactions salt :
  quietly (challengeDuplicateNullifier block transactions salt).
Proof.
  unfold challengeDuplicateNullifier, retrieveMinedNullifiers, getBlockByBlockHash,
    getTransactionsByTransactionHashes. quiet_crush.
Qed.

Lemma quietly_challengeIncorrectLeafCount block transactions salt :
  quietly (challengeIncorrectLeafCount block transactions salt).
Proof.
  unfold challengeIncorrectLeafCount, getBlockByBlockNumberL2,
    getTransactionsByTransactionHashes. quiet_crush.
Qed.

Lemma quietly_buildChallenge env block transactions err salt :
  quietly (buildChallenge env block transactions err salt).
Proof.
  unfold buildChallenge.
  repeat match goal with
         | |- quietly (match ?x with _ => _ end) => destruct x
         end;
    first [ apply quietly_ret
          | apply quietly_challengeIncorrectRoot
          | apply quietly_challengeDuplicateTransaction
          | apply quietly_challengeInvalidTransactionType
          | apply quietly_challengeIncorrectHistoricRoot
          | apply quietly_challengeProofDoesNotVerify
          | apply quietly_challengeDuplicateNullifier
          | apply quietly_challengeIncorrectLeafCount ].
Qed.

Lemma quietly_createChallenge env block transactions err :
  quietly (createChallenge env block transactions err).
Proof.
  unfold createChallenge, rand32, spawn. quiet_crush.
  - apply quietly_step; intro; reflexivity.
  - apply quietly_buildChallenge.
Qed.

Lemma quietly_blockProposedEventHandler env n h block transactions :
  quietly (blockProposedEventHandler env n h block transactions).
Proof.
  unfold blockProposedEventHandler, saveBlock, stampNullifiers,
    removeTransactionsFromMemPool, getLatestTree, saveTree, runCheckBlock.
  quiet_crush; try (apply quietly_step; intro; reflexivity);
    apply quietly_createChallenge.
Qed.

Lemma quietly_removeBlockProposedEventHandler h :
  quietly (removeBlockProposedEventHandler h).
Proof.
  unfold removeBlockProposedEventHandler, getBlockByBlockHash, unstampNullifiers.
  quiet_crush.
Qed.

Lemma quietly_startMakingChallenges : quietly startMakingChallenges.
Proof. unfold startMakingChallenges. quiet_crush. Qed.

Lemma quietly_stopMakingChallenges : quietly stopMakingChallenges.
Proof. unfold stopMakingChallenges. quiet_crush. Qed.

(** ** The handler of block-proposed events, computed *)

Lemma blockProposedEventHandler_unfold env n h block transactions w :
  blockProposedEventHandler env n h block transactions w =
  let wc := worldAtCheck env n h block transactions w in
  match checkBlock env wc block transactions with
  | Normal _ => (Normal tt, addLog LInfo "Block Checker - Block was valid" wc)
  | Throw err =>
      match err with
      | JsBlockError e =>
          createChallenge env block transactions e
            (addLog LWarn "Block Checker - Block invalid" wc)
      | _ => (Throw (JsError (thrownToString err)),
              addLog LError (thrownToString err) wc)
      end
  end.
Proof.
  destruct w as [bs txs ns ts mp cs mc reads salts tk un tr].
  unfold blockProposedEventHandler, worldAtCheck. run_monad.
  rewrite <- !app_assoc. cbn [app].
  match goal with
  | |- context [checkBlock env ?wc block transactions] =>
      destruct (checkBlock env wc block transactions) as [[]|err]
  end; [rewrite <- ?app_assoc; reflexivity|].
  destruct err; rewrite <- ?app_assoc; reflexivity.
Qed.

(** ** Order of the coordinator's messages *)

Lemma orderedFrom_app env pre t u :
  orderedFrom env pre (t ++ u) <-> orderedFrom env pre t /\ orderedFrom env (pre ++ t) u.
Proof.
  revert pre. induction t as [|e t IH]; intro pre; simpl.
  - rewrite app_nil_r. tauto.
  - rewrite IH, <- app_assoc. simpl. tauto.
Qed.

Lemma orderedFrom_split env p pre e post :
  orderedFrom env p (pre ++ e :: post) -> inOrder env (p ++ pre) e.
Proof. intro H. apply orderedFrom_app in H. simpl in H. tauto. Qed.

Lemma orderedFrom_quiet env pre t : Forall quiet t -> orderedFrom env pre t.
Proof.
  intro H. revert pre. induction H as [|e t He Ht IH]; intro pre; simpl; [exact I|].
  split; [|apply IH]. destruct e; simpl in *; tauto.
Qed.

Lemma coordinated_quietly {A} env (m : M A) w :
  quietly m -> coordinated env w -> coordinated env (snd (m w)).
Proof.
  intros Hm [Ho [Hr Hp]]. destruct (Hm w) as [Hc [t [Ht Hq]]]. repeat split.
  - rewrite Ht. apply orderedFrom_app. split; [assumption|].
    apply orderedFrom_quiet. assumption.
  - intros c Hin. rewrite Hc in Hin. rewrite Ht. apply in_or_app. left. auto.
  - intros h tx Hin. rewrite Hc. rewrite Ht in Hin. apply in_app_or in Hin.
    destruct Hin as [Hin|Hin]; [auto|].
    rewrite Forall_forall in Hq. destruct (Hq _ Hin).
Qed.

Lemma keeps_quietly {A} env (m : M A) : quietly m -> keeps env m.
Proof. intros Hm w Hw. apply coordinated_quietly; assumption. Qed.

Lemma keeps_bind {A B} env (m : M A) (k : A -> M B) :
  keeps env m -> (forall a, keeps env (k a)) -> keeps env (bind m k).
Proof.
  intros Hm Hk w Hw. unfold bind. specialize (Hm w Hw).
  destruct (m w) as [[a|e] w1]; simpl in *; [apply Hk|]; assumption.
Qed.

Lemma keeps_tryCatch {A} env (m : M A) (h : Thrown -> M A) :
  keeps env m -> (forall e, keeps env (h e)) -> keeps env (tryCatch m h).
Proof.
  intros Hm Hh w Hw. unfold tryCatch. specialize (Hm w Hw).
  destruct (m w) as [[a|e] w1]; simpl in *; [|apply Hh]; assumption.
Qed.

Lemma in_trace_advance reads es e w :
  In e (trace w) -> In e (trace (advance reads es w)).
Proof. intro H. unfold advance. world_simpl. apply in_or_app. auto. Qed.

(** A commit task saves its record first and sends the commit message
    last, if it sends it at all. *)
Lemma keeps_commitToChallenge env txDataToSign :
  keeps env (commitToChallenge env txDataToSign).
Proof.
  intros w [Ho [Hr Hp]]. rewrite commitToChallenge_spec.
  destruct (soliditySha3 env txDataToSign) as [h|e] eqn:Hh; [|repeat split; assumption].
  cbv zeta.
  assert (Hrec : forall reads es,
             recorded (advance reads
                         (ELog LDebug commitDebug :: ESaveCommit h txDataToSign :: es)
                         (withCommit h txDataToSign w))).
  { intros reads es c Hin. unfold advance, withCommit in *. world_simpl. revert Hin.
    world_simpl. intro Hin. apply in_app_or in Hin. apply in_or_app.
    destruct Hin as [Hin|[<-|[]]]; [left; auto|right; simpl; auto]. }
  assert (Hper : forall reads es,
             Forall (fun e => forall h' tx', e <> ESaveCommit h' tx') es ->
             persisted (advance reads
                          (ELog LDebug commitDebug :: ESaveCommit h txDataToSign :: es)
                          (withCommit h txDataToSign w))).
  { intros reads es Hes h' tx' Hin. unfold advance, withCommit in *. revert Hin.
    world_simpl. rewrite !in_app_iff. cbn [In].
    intros [Hin|[Hin|[Hin|Hin]]]; [left; auto|discriminate| |].
    - right. left. congruence.
    - rewrite Forall_forall in Hes. destruct (Hes _ Hin h' tx' eq_refl). }
  assert (Hpolls : forall k, Forall (fun e => forall h' tx', e <> ESaveCommit h' tx')
                                    (polls k commitWarning)).
  { induction k; cbn [polls]; repeat constructor; try discriminate; assumption. }
  destruct (_ <? _)%nat; cbn [fst snd]; (split; [|split; [apply Hrec|apply Hper]]).
  - unfold advance, withCommit. world_simpl.
    apply orderedFrom_app. split; [assumption|].
    cbn [orderedFrom inOrder]. split; [exact I|]. split; [exact I|].
    apply orderedFrom_app. split; [apply orderedFrom_quiet, polls_quiet|].
    cbn [orderedFrom inOrder msgType msgTxDataToSign commitMessage]. split; [|exact I].
    left. split; [reflexivity|].
    exists h, txDataToSign. split; [reflexivity|]. split; [assumption|].
    rewrite ?in_app_iff. cbn [In]. tauto.
  - apply Forall_app. split; [apply Hpolls|]. repeat constructor. discriminate.
  - unfold advance, withCommit. world_simpl.
    apply orderedFrom_app. split; [assumption|].
    cbn [orderedFrom inOrder]. split; [exact I|]. split; [exact I|].
    apply orderedFrom_quiet, polls_quiet.
  - apply Hpolls.
Qed.

Lemma keeps_runTask env t : keeps env (runTask env t).
Proof.
  destruct t as [tx]. unfold runTask. apply keeps_tryCatch.
  - apply keeps_commitToChallenge.
  - intro e. apply keeps_quietly. apply quietly_modify; intro; reflexivity.
Qed.

(** The reveal is sent after the confirmation was observed, and its
    payload is the one kept under the confirmed commit hash. *)
Lemma keeps_committedToChallengeEventHandler env commitHash :
  keeps env (committedToChallengeEventHandler env commitHash).
Proof.
  intros w [Ho [Hr Hp]]. unfold committedToChallengeEventHandler.
  unfold bind at 1. unfold emit at 1. unfold modify. cbn [fst snd].
  unfold bind at 1. unfold getCommit, gets. cbn [fst snd].
  replace (commitsDb (set_trace (trace w ++ [ECommitMined commitHash]) w))
    with (commitsDb w) by reflexivity.
  assert (Hmined : coordinated env (set_trace (trace w ++ [ECommitMined commitHash]) w)).
  { repeat split.
    - world_simpl. apply orderedFrom_app. split; [assumption|]. simpl. auto.
    - intros c Hin. world_simpl. apply in_or_app. left. apply Hr. exact Hin.
    - intros h tx. world_simpl. rewrite in_app_iff. cbn [In].
      intros [Hs|[Hs|[]]]; [auto|discriminate]. }
  destruct (find (fun c => cCommitHash c =? commitHash) (commitsDb w)) as [c|] eqn:Hfind;
    [|exact Hmined].
  apply find_some in Hfind. destruct Hfind as [Hin Heq]. apply Z.eqb_eq in Heq.
  specialize (Hr c Hin). rewrite Heq in Hr.
  rewrite revealChallenge_spec. cbv zeta.
  destruct Hmined as [Ho' [Hr' Hp']].
  assert (Hpolls : forall k, Forall (fun e => forall h' tx', e <> ESaveCommit h' tx')
                                    (polls k revealWarning)).
  { induction k; cbn [polls]; repeat constructor; try discriminate; assumption. }
  assert (Hper : forall reads es,
             Forall (fun e => forall h' tx', e <> ESaveCommit h' tx') es ->
             persisted (advance reads (ELog LDebug revealDebug :: es)
                          (set_trace (trace w ++ [ECommitMined commitHash]) w))).
  { intros reads es Hes h' tx'. unfold advance. world_simpl.
    rewrite !in_app_iff. cbn [In].
    intros [[Hs|[Hs|[]]]|[Hs|Hs]]; [auto|discriminate|discriminate|].
    rewrite Forall_forall in Hes. destruct (Hes _ Hs h' tx' eq_refl). }
  destruct (_ <? _)%nat; cbn [fst snd]; (split; [|split]).
  - unfold advance. world_simpl.
    apply orderedFrom_app. split; [exact Ho'|].
    cbn [orderedFrom inOrder]. split; [exact I|].
    apply orderedFrom_app. split; [apply orderedFrom_quiet, polls_quiet|].
    cbn [orderedFrom inOrder msgType msgTxDataToSign commitMessage]. split; [|exact I].
    right. split; [reflexivity|].
    exists commitHash. cbn [msgTxDataToSign].
    split; rewrite ?in_app_iff; cbn [In]; tauto.
  - intros c' Hin'. apply in_trace_advance. apply Hr'. exact Hin'.
  - apply Hper. apply Forall_app. split; [apply Hpolls|]. repeat constructor. discriminate.
  - unfold advance. world_simpl.
    apply orderedFrom_app. split; [exact Ho'|].
    cbn [orderedFrom inOrder]. split; [exact I|]. apply orderedFrom_quiet, polls_quiet.
  - intros c' Hin'. apply in_trace_advance. apply Hr'. exact Hin'.
  - apply Hper. apply Hpolls.
Qed.

Lemma keeps_handle env i : keeps env (handle env i).
Proof.
  destruct i; simpl.
  - apply keeps_quietly, quietly_blockProposedEventHandler.
  - apply keeps_quietly, quietly_removeBlockProposedEventHandler.
  - apply keeps_committedToChallengeEventHandler.
  - apply keeps_quietly, quietly_startMakingChallenges.
  - apply keeps_quietly, quietly_stopMakingChallenges.
  - apply keeps_bind; [apply keeps_quietly, quietly_gets|]. intro pending.
    destruct (nth_error pending i); [|apply keeps_quietly, quietly_ret].
    apply keeps_bind; [|intro; apply keeps_runTask].
    apply keeps_quietly. apply quietly_modify; intro; reflexivity.
Qed.

Lemma run_coordinated env inputs :
  forall w, coordinated env w -> coordinated env (run env inputs w).
Proof.
  induction inputs as [|i rest IH]; intros w Hw; simpl; [assumption|].
  apply IH. apply keeps_handle. assumption.
Qed.

Lemma coordinated_fresh env w : trace w = [] -> commitsDb w = [] -> coordinated env w.
Proof.
  intros Ht Hc. repeat split.
  - rewrite Ht. exact I.
  - intros c Hin. rewrite Hc in Hin. destruct Hin.
  - intros h tx Hin. rewrite Ht in Hin. destruct Hin.
Qed.

(** ** Read-only computations *)

Lemma sameStore_refl w : sameStore w w.
Proof. repeat split. Qed.

Lemma sameStore_trans w1 w2 w3 : sameStore w1 w2 -> sameStore w2 w3 -> sameStore w1 w3.
Proof.
  unfold sameStore. intros H1 H2.
  repeat match goal with H : _ /\ _ |- _ => destruct H end.
  repeat split; congruence.
Qed.

Lemma readonly_bind {A B} (m : M A) (k : A -> M B) :
  readonly m -> (forall a, readonly (k a)) -> readonly (bind m k).
Proof.
  intros Hm Hk w. unfold bind. specialize (Hm w).
  destruct (m w) as [[a|e] w1]; simpl in *; [|assumption].
  eapply sameStore_trans; [exact Hm|apply Hk].
Qed.

Lemma readonly_step {A} (f : World -> Completion A * World) :
  (forall w, sameStore w (snd (f w))) -> readonly f.
Proof. intros H w. apply H. Qed.

Lemma readonly_mapM {A B} (f : A -> M B) (xs : list A) :
  (forall x, readonly (f x)) -> readonly (mapM f xs).
Proof.
  intro Hf. induction xs as [|x xs IH]; simpl.
  - intro w. apply sameStore_refl.
  - apply readonly_bind; [apply Hf|]. intro y.
    apply readonly_bind; [apply IH|]. intros ys w. apply sameStore_refl.
Qed.

Ltac readonly_step :=
  match goal with
  | |- forall x, readonly (@?m x) => intro
  | |- readonly (bind _ _) => apply readonly_bind
  | |- readonly (mapM _ _) => apply readonly_mapM
  | |- readonly (match ?x with _ => _ end) => destruct x
  | |- readonly (let '(_, _) := ?x in _) => destruct x
  | |- readonly _ => intro; repeat split
  end.

Lemma readonly_buildChallenge env block transactions err salt :
  readonly (buildChallenge env block transactions err salt).
Proof.
  unfold buildChallenge, challengeIncorrectRoot, challengeDuplicateTransaction,
    challengeInvalidTransactionType, challengeIncorrectHistoricRoot,
    challengeProofDoesNotVerify, challengeDuplicateNullifier,
    challengeIncorrectLeafCount, buildSolidityStruct.
  repeat match goal with
         | |- readonly (match ?x with _ => _ end) => destruct x
         end;
    repeat readonly_step.
Qed.

(** * The claims *)

(** C1. For every challenge, the reveal message (the payload itself) goes
    out on the websocket only after the confirmation that its commit was
    mined has been observed: in every run of the event loop from a fresh
    start, whatever the events, their interleaving with the pending commit
    tasks and the behaviour of the socket, a message of type "challenge" is
    preceded in the history by the save of a commit record holding its
    payload and by the confirmation of that very commit hash. *)
Theorem reveal_only_after_commit_mined env inputs w0 pre m post :
  trace w0 = [] ->
  commitsDb w0 = [] ->
  trace (run env inputs w0) = pre ++ EWsSend m :: post ->
  msgType m = "challenge" ->
  exists h, In (ECommitMined h) pre /\ In (ESaveCommit h (msgTxDataToSign m)) pre.
Proof.
  intros Ht Hc Hsplit Htype.
  destruct (run_coordinated env inputs w0 (coordinated_fresh env w0 Ht Hc)) as [Ho _].
  rewrite Hsplit in Ho. apply orderedFrom_split in Ho. cbn [inOrder app] in Ho.
  destruct Ho as [[Hcommit _]|[_ [h [Hsave Hmined]]]].
  - rewrite Htype in Hcommit. discriminate.
  - exists h. split; assumption.
Qed.

Lemma reveal_only_after_commit_mined_witness :
  exists h,
    In (ECommitMined h) (firstn 15 (trace (run challengeEnv challengeInputs (emptyWorld true)))) /\
    In (ESaveCommit h (Some challengePayload))
       (firstn 15 (trace (run challengeEnv challengeInputs (emptyWorld true)))).
Proof.
  apply (reveal_only_after_commit_mined challengeEnv challengeInputs (emptyWorld true)
           (firstn 15 (trace (run challengeEnv challengeInputs (emptyWorld true))))
           (mkWsMessage "challenge" (Some challengePayload))
           (skipn 16 (trace (run challengeEnv challengeInputs (emptyWorld true)))));
    reflexivity.
Defined.

(** C7. For every challenge the coordinator starts, the record
    [{commitHash -> payload}] is saved before the commit message is sent:
    in every run of the event loop from a fresh start, a message of type
    "commit" carries the call [commitToChallenge(h)] for a hash [h] of a
    payload whose record was saved earlier in the history, and that record
    is in the store. *)
Theorem commit_saved_before_commit_sent env inputs w0 pre m post :
  trace w0 = [] ->
  commitsDb w0 = [] ->
  trace (run env inputs w0) = pre ++ EWsSend m :: post ->
  msgType m = "commit" ->
  exists h tx,
    msgTxDataToSign m = Some (commitToChallengeCall h) /\
    soliditySha3 env tx = Normal h /\
    In (ESaveCommit h tx) pre /\
    In (mkCommitRecord h tx) (commitsDb (run env inputs w0)).
Proof.
  intros Ht Hc Hsplit Htype.
  destruct (run_coordinated env inputs w0 (coordinated_fresh env w0 Ht Hc)) as [Ho [_ Hp]].
  rewrite Hsplit in Ho. apply orderedFrom_split in Ho. cbn [inOrder app] in Ho.
  destruct Ho as [[_ [h [tx [Hm [Hh Hsave]]]]]|[Hreveal _]].
  - exists h, tx. repeat split; try assumption.
    apply Hp. rewrite Hsplit. apply in_or_app. left. exact Hsave.
  - rewrite Htype in Hreveal. discriminate.
Qed.

Lemma commit_saved_before_commit_sent_witness :
  exists h tx,
    Some (commitToChallengeCall 2001) = Some (commitToChallengeCall h) /\
    demoSha3 tx = Normal h /\
    In (ESaveCommit h tx)
       (firstn 12 (trace (run challengeEnv challengeInputs (emptyWorld true)))) /\
    In (mkCommitRecord h tx)
       (commitsDb (run challengeEnv challengeInputs (emptyWorld true))).
Proof.
  apply (commit_saved_before_commit_sent challengeEnv challengeInputs (emptyWorld true)
           (firstn 12 (trace (run challengeEnv challengeInputs (emptyWorld true))))
           (commitMessage 2001)
           (skipn 13 (trace (run challengeEnv challengeInputs (emptyWorld true)))));
    reflexivity.
Defined.

(** ** The store *)

Lemma find_upsertBlock b bs :
  find (fun x => blockHash (storedBlock x) =? blockHash (storedBlock b)) (upsertBlock b bs)
  = Some b.
Proof.
  induction bs as [|x bs IH]; simpl.
  - rewrite Z.eqb_refl. reflexivity.
  - destruct (blockHash (storedBlock x) =? blockHash (storedBlock b)) eqn:E; simpl.
    + rewrite Z.eqb_refl. reflexivity.
    + rewrite E. exact IH.
Qed.

Lemma latestTimber_snoc ts r : latestTimber (ts ++ [r]) = tTree r.
Proof. unfold latestTimber. rewrite rev_unit. reflexivity. Qed.

Lemma stampOne_keeps h db n x : stampedIn db x -> stampedIn (stampOne h db n) x.
Proof.
  intros [r [Hin [Hh Hs]]]. unfold stampOne.
  destruct (existsb (fun r0 => hash r0 =? n) db).
  - exists r. split; [|auto].
    apply in_map_iff. exists r. split; [|assumption].
    destruct (nBlockHash r); [reflexivity|congruence].
  - exists r. split; [apply in_or_app; auto|auto].
Qed.

Lemma stampOne_stamps h db n : stampedIn (stampOne h db n) n.
Proof.
  unfold stampOne. destruct (existsb (fun r => hash r =? n) db) eqn:E.
  - apply existsb_exists in E. destruct E as [r [Hin Heq]]. apply Z.eqb_eq in Heq.
    destruct (nBlockHash r) as [s|] eqn:Hs.
    + exists r. repeat split; [|assumption|congruence].
      apply in_map_iff. exists r. rewrite Hs. auto.
    + exists (mkNullifierRecord n (Some h)). repeat split; [|discriminate].
      apply in_map_iff. exists r. rewrite Hs, Heq, Z.eqb_refl. auto.
  - exists (mkNullifierRecord n (Some h)). repeat split; [|discriminate].
    apply in_or_app. right. simpl. auto.
Qed.

Lemma stampAll_keeps h ns : forall db x,
  stampedIn db x -> stampedIn (fold_left (stampOne h) ns db) x.
Proof.
  induction ns as [|n ns IH]; intros db x Hx; simpl; [assumption|].
  apply IH. apply stampOne_keeps. assumption.
Qed.

Lemma stampAll_stamps h ns : forall db x,
  In x ns -> stampedIn (fold_left (stampOne h) ns db) x.
Proof.
  induction ns as [|n ns IH]; intros db x Hin; simpl; [destruct Hin|].
  destruct Hin as [<-|Hin].
  - apply stampAll_keeps. apply stampOne_stamps.
  - apply IH. assumption.
Qed.

(** ** [createChallenge], computed *)

Lemma createChallenge_unfold env block transactions err w :
  createChallenge env block transactions err w =
  if makeChallenges w then
    match buildChallenge env block transactions err (rand env (saltsDrawn w))
            (set_saltsDrawn (S (saltsDrawn w)) w) with
    | (Normal txDataToSign, w1) =>
        (Normal tt, set_tasks (tasks w1 ++ [CommitTask txDataToSign]) w1)
    | (Throw e, w1) => (Throw e, w1)
    end
  else (Normal tt, addLog LInfo faultyBlockNotice w).
Proof.
  unfold createChallenge. unfold bind at 1. unfold gets. cbn [fst snd].
  destruct (makeChallenges w); [|reflexivity].
  unfold bind at 1. unfold rand32 at 1. unfold bind at 1.
  destruct (buildChallenge _ _ _ _ _ _) as [[tx|e] w1]; reflexivity.
Qed.

(** Apart from the task it may start, [createChallenge] leaves the store
    as it found it. *)
Lemma createChallenge_store env block transactions err w :
  let w' := snd (createChallenge env block transactions err w) in
  blocks w' = blocks w /\ nullifierDb w' = nullifierDb w /\ timberDb w' = timberDb w /\
  commitsDb w' = commitsDb w /\ makeChallenges w' = makeChallenges w /\
  wsReads w' = wsReads w /\ unhandled w' = unhandled w.
Proof.
  cbv zeta. rewrite createChallenge_unfold.
  destruct (makeChallenges w) eqn:Hmc; [|repeat split; assumption].
  pose proof (readonly_buildChallenge env block transactions err (rand env (saltsDrawn w))
                (set_saltsDrawn (S (saltsDrawn w)) w)) as H.
  destruct (buildChallenge _ _ _ _ _ _) as [[tx|e] w1]; cbn [fst snd] in *;
    unfold sameStore in H; cbn in H;
    repeat match goal with H : _ /\ _ |- _ => destruct H end;
    repeat split; world_simpl; congruence.
Qed.

(** C8. For every block-proposed event the handler saves the block, stamps
    its nullifiers and saves the tree updated with its commitments before
    it calls the checker: the handler is the checker's verdict on the world
    [worldAtCheck], whose history ends with the save of the block, the
    stamping, the save of the tree and then the check, in which the block
    is found with its layer-1 number, every non-zero nullifier of the
    block has a stamped record, and the latest tree is the former latest
    tree updated with the block's non-zero commitments (so its leaf count
    has grown by their number). The checker itself leaves the world as it
    is, except for the mention of the check in the history. *)
Theorem checker_sees_the_applied_block env n h block transactions w :
  let wc := worldAtCheck env n h block transactions w in
  let leaves :=
    flat_map (fun t => filter (fun c => negb (c =? ZERO)) (commitments t)) transactions in
  let stamped :=
    flat_map (fun tx => filter (fun x => negb (x =? 0)) (nullifiers tx)) transactions in
  blockProposedEventHandler env n h block transactions w =
    match checkBlock env wc block transactions with
    | Normal _ => (Normal tt, addLog LInfo "Block Checker - Block was valid" wc)
    | Throw err =>
        match err with
        | JsBlockError e =>
            createChallenge env block transactions e
              (addLog LWarn "Block Checker - Block invalid" wc)
        | _ => (Throw (JsError (thrownToString err)),
                addLog LError (thrownToString err) wc)
        end
    end /\
  trace wc =
    trace w ++
      [ELog LInfo "Received BlockProposed event";
       ESaveBlock (blockHash block);
       EStampNullifiers stamped (blockHash block);
       ERemoveTransactionsFromMemPool (blockHash block);
       ESaveTree (blockNumberL2 block) (statelessUpdate env (latestTimber (timberDb w)) leaves);
       ELog LDebug "Saving tree with block number";
       ECheckBlock (blockHash block)] /\
  find (fun b => blockHash (storedBlock b) =? blockHash block) (blocks wc)
    = Some (mkStoredBlock (Some n) h block) /\
  Forall (stampedIn (nullifierDb wc)) stamped /\
  latestTimber (timberDb wc) = statelessUpdate env (latestTimber (timberDb w)) leaves /\
  tLeafCount (latestTimber (timberDb wc))
    = tLeafCount (latestTimber (timberDb w)) + Z.of_nat (List.length leaves) /\
  (forall w0, runCheckBlock env block transactions w0
              = (checkBlock env (set_trace (trace w0 ++ [ECheckBlock (blockHash block)]) w0)
                   block transactions,
                 set_trace (trace w0 ++ [ECheckBlock (blockHash block)]) w0)).
Proof.
  cbv zeta. split; [apply blockProposedEventHandler_unfold|].
  split; [reflexivity|].
  split; [apply (find_upsertBlock (mkStoredBlock (Some n) h block))|].
  split.
  { apply Forall_forall. intros x Hx. unfold worldAtCheck. cbn [nullifierDb].
    apply stampAll_stamps. exact Hx. }
  assert (Hlatest :
    latestTimber (timberDb (worldAtCheck env n h block transactions w)) =
    statelessUpdate env (latestTimber (timberDb w))
      (flat_map (fun t => filter (fun c => negb (c =? ZERO)) (commitments t)) transactions)).
  { unfold worldAtCheck. cbn [timberDb]. apply latestTimber_snoc. }
  split; [exact Hlatest|]. split.
  - rewrite Hlatest. unfold statelessUpdate.
    destruct (updateNodes env _ _ _). reflexivity.
  - intro w0. reflexivity.
Qed.

(** C2, as stated, fails: a block-proposed event whose block the checker
    refuses with a BlockError of code 0, for the first block of the chain
    and with challenges on. The block is saved, the error reaches
    [createChallenge], and the handler does not return: the coordinator's
    own guard throws "Could not find prior block" and the handler lets it
    through. *)
Lemma invalid_block_handler_may_throw :
  let env := demoEnv alwaysOpen (rejectWith 0) in
  let r := blockProposedEventHandler env 10 900 block0 [tx1] (emptyWorld true) in
  checkBlock env (worldAtCheck env 10 900 block0 [tx1] (emptyWorld true)) block0 [tx1]
    = Throw (JsBlockError (mkBlockError 0 "invalid block" (mkMetadata 0 0))) /\
  fst r = Throw (JsError "Could not find prior block with block number -1") /\
  fst r <> Normal tt.
Proof. cbv zeta. split; [reflexivity|]. split; [reflexivity|discriminate]. Qed.

(** C2, amended. When the checker throws [err] on a block-proposed event,
    the block is in the store all the same. If [err] is a BlockError, the
    handler is exactly the call of [createChallenge] with it, in the world
    the block was applied to: it returns when the coordinator returns
    (always so when challenges are off) and throws what the coordinator
    throws. Any other error is thrown again, wrapped in a new Error, and
    the coordinator is not called. *)
Theorem invalid_block_is_saved_and_handed_over env n h block transactions w err :
  checkBlock env (worldAtCheck env n h block transactions w) block transactions
    = Throw err ->
  let wc := worldAtCheck env n h block transactions w in
  let r := blockProposedEventHandler env n h block transactions w in
  find (fun b => blockHash (storedBlock b) =? blockHash block) (blocks (snd r))
    = Some (mkStoredBlock (Some n) h block) /\
  match err with
  | JsBlockError e =>
      r = createChallenge env block transactions e
            (addLog LWarn "Block Checker - Block invalid" wc) /\
      (makeChallenges w = false -> fst r = Normal tt)
  | _ =>
      r = (Throw (JsError (thrownToString err)), addLog LError (thrownToString err) wc)
  end.
Proof.
  intros Hcheck. cbv zeta.
  rewrite blockProposedEventHandler_unfold. cbv zeta. rewrite Hcheck.
  pose proof (find_upsertBlock (mkStoredBlock (Some n) h block) (blocks w)) as Hfind.
  destruct err as [msg|msg|msg|e|]; try (split; [exact Hfind|reflexivity]).
  split; [|split; [reflexivity|]].
  - destruct (createChallenge_store env block transactions e
                (addLog LWarn "Block Checker - Block invalid"
                   (worldAtCheck env n h block transactions w))) as [Hb _].
    rewrite Hb. exact Hfind.
  - intro Hoff. rewrite createChallenge_unfold.
    replace (makeChallenges (addLog LWarn "Block Checker - Block invalid"
                               (worldAtCheck env n h block transactions w)))
      with (makeChallenges w) by reflexivity.
    rewrite Hoff. reflexivity.
Qed.

Lemma invalid_block_is_saved_and_handed_over_witness :
  let env := demoEnv alwaysOpen (rejectWith 2) in
  let wc := worldAtCheck env 10 900 block0 [tx1] (emptyWorld false) in
  let r := blockProposedEventHandler env 10 900 block0 [tx1] (emptyWorld false) in
  find (fun b => blockHash (storedBlock b) =? blockHash block0) (blocks (snd r))
    = Some (mkStoredBlock (Some 10) 900 block0) /\
  (r = createChallenge env block0 [tx1] (mkBlockError 2 "invalid block" (mkMetadata 0 0))
         (addLog LWarn "Block Checker - Block invalid" wc) /\
   (makeChallenges (emptyWorld false) = false -> fst r = Normal tt)).
Proof.
  exact (invalid_block_is_saved_and_handed_over
           (demoEnv alwaysOpen (rejectWith 2)) 10 900 block0 [tx1] (emptyWorld false)
           (JsBlockError (mkBlockError 2 "invalid block" (mkMetadata 0 0))) eq_refl).
Defined.

(** ** The first blocks of the chain *)

Lemma no_block_below_zero n bs :
  n < 0 ->
  find (fun b : StoredBlock => Z.of_N (blockNumberL2 (storedBlock b)) =? n) bs = None.
Proof.
  intro Hn. induction bs as [|b bs IH]; simpl; [reflexivity|].
  destruct (Z.of_N (blockNumberL2 (storedBlock b)) =? n) eqn:E; [|exact IH].
  apply Z.eqb_eq in E. lia.
Qed.

Lemma challengeIncorrectRoot_early env block transactions salt w :
  find (fun b : StoredBlock =>
          Z.of_N (blockNumberL2 (storedBlock b)) =? Z.of_N (blockNumberL2 block) - 2)
       (blocks w) = None ->
  challengeIncorrectRoot env block transactions salt w =
  (match find (fun b : StoredBlock =>
                 Z.of_N (blockNumberL2 (storedBlock b)) =? Z.of_N (blockNumberL2 block) - 1)
              (blocks w) with
   | None => Throw (JsError (priorBlockNotFound block))
   | Some _ => Throw (JsTypeError "Cannot set properties of null (setting 'root')")
   end,
   addLog LDebug "Challenging incorrect root" w).
Proof.
  intro Hnone. unfold challengeIncorrectRoot.
  unfold bind at 1. unfold logger at 1. unfold emit, modify. cbn [fst snd].
  unfold bind at 1. unfold getBlockByBlockNumberL2 at 1. unfold gets. cbn [fst snd].
  replace (blocks (set_trace (trace w ++ [ELog LDebug "Challenging incorrect root"]) w))
    with (blocks w) by reflexivity.
  destruct (find (fun b : StoredBlock =>
                    Z.of_N (blockNumberL2 (storedBlock b))
                    =? Z.of_N (blockNumberL2 block) - 1) (blocks w)) as [prior|];
    [|reflexivity].
  unfold bind at 1. unfold getTransactionsByTransactionHashes at 1. unfold gets.
  cbn [fst snd].
  unfold bind at 1. unfold getBlockByBlockNumberL2 at 1. unfold gets. cbn [fst snd].
  replace (blocks (set_trace (trace w ++ [ELog LDebug "Challenging incorrect root"]) w))
    with (blocks w) by reflexivity.
  rewrite Hnone. reflexivity.
Qed.

(** C10, as stated, fails for the very first block: with L2 block number 0
    and a code-0 error, the lookup of the prior block (number -1) returns
    null and the guard on it throws a plain Error; the assignment to the
    root of a null block two positions earlier is never reached and no
    TypeError is thrown. *)
Lemma incorrect_root_of_block_zero_is_not_a_type_error :
  let r := createChallenge (demoEnv alwaysOpen accept) block0 [tx1]
             (mkBlockError 0 "invalid block" (mkMetadata 0 0)) (emptyWorld true) in
  (blockNumberL2 block0 < 2)%N /\
  fst r = Throw (JsError "Could not find prior block with block number -1") /\
  ~ (exists msg, fst r = Throw (JsTypeError msg)).
Proof.
  cbv zeta. split; [reflexivity|]. split; [reflexivity|].
  intros [msg H]. discriminate H.
Qed.

(** C10, amended. If [createChallenge] is called, challenges being on,
    with a code-0 error for a block whose L2 block number is less than 2,
    the lookup of the block two positions earlier returns null and no
    challenge is built: no commit task is started and the call throws.
    When the prior block is found (block number 1 with block 0 in the
    store) it throws the TypeError of the assignment to the root of null;
    when it is not (always so for block number 0) it throws the Error of
    the guard on the prior block. *)
Theorem incorrect_root_challenge_of_early_block env block transactions err w :
  makeChallenges w = true ->
  code err = 0 ->
  (blockNumberL2 block < 2)%N ->
  let r := createChallenge env block transactions err w in
  tasks (snd r) = tasks w /\
  find (fun b : StoredBlock =>
          Z.of_N (blockNumberL2 (storedBlock b)) =? Z.of_N (blockNumberL2 block) - 2)
       (blocks w) = None /\
  match find (fun b : StoredBlock =>
                Z.of_N (blockNumberL2 (storedBlock b)) =? Z.of_N (blockNumberL2 block) - 1)
             (blocks w) with
  | None => fst r = Throw (JsError (priorBlockNotFound block))
  | Some _ => fst r = Throw (JsTypeError "Cannot set properties of null (setting 'root')")
  end /\
  (blockNumberL2 block = 0%N ->
   fst r = Throw (JsError "Could not find prior block with block number -1")).
Proof.
  intros Hon Hcode Hearly. cbv zeta.
  assert (Hnone : find (fun b : StoredBlock =>
                          Z.of_N (blockNumberL2 (storedBlock b))
                          =? Z.of_N (blockNumberL2 block) - 2) (blocks w) = None).
  { apply no_block_below_zero. lia. }
  rewrite createChallenge_unfold, Hon. unfold buildChallenge. rewrite Hcode.
  rewrite challengeIncorrectRoot_early by exact Hnone.
  replace (blocks (set_saltsDrawn (S (saltsDrawn w)) w)) with (blocks w) by reflexivity.
  split; [|split; [exact Hnone|split]].
  - destruct (find (fun b : StoredBlock =>
                      Z.of_N (blockNumberL2 (storedBlock b))
                      =? Z.of_N (blockNumberL2 block) - 1) (blocks w)); reflexivity.
  - destruct (find (fun b : StoredBlock =>
                      Z.of_N (blockNumberL2 (storedBlock b))
                      =? Z.of_N (blockNumberL2 block) - 1) (blocks w)); reflexivity.
  - intro Hzero. unfold priorBlockNotFound. rewrite Hzero. cbn [Z.of_N Z.sub Z.add Z.opp].
    rewrite no_block_below_zero by lia. reflexivity.
Qed.

Lemma incorrect_root_challenge_of_early_block_witness :
  let w := set_blocks [mkStoredBlock (Some 10) 900 block0] (emptyWorld true) in
  let r := createChallenge (demoEnv alwaysOpen accept) blockC [txYX]
             (mkBlockError 0 "invalid block" (mkMetadata 0 0)) w in
  tasks (snd r) = [] /\
  fst r = Throw (JsTypeError "Cannot set properties of null (setting 'root')").
Proof.
  cbv zeta.
  pose proof (incorrect_root_challenge_of_early_block
                (demoEnv alwaysOpen accept) blockC [txYX]
                (mkBlockError 0 "invalid block" (mkMetadata 0 0))
                (set_blocks [mkStoredBlock (Some 10) 900 block0] (emptyWorld true))
                eq_refl eq_refl eq_refl) as H.
  cbv zeta in H. destruct H as [Htasks [_ [Hthrow _]]].
  split; [exact Htasks|exact Hthrow].
Defined.

(** ** The flag and the tasks in flight *)

Lemma revealChallenge_ignores_flag env txDataToSign b w :
  revealChallenge env txDataToSign (set_makeChallenges b w) =
  (fst (revealChallenge env txDataToSign w),
   set_makeChallenges b (snd (revealChallenge env txDataToSign w))).
Proof.
  rewrite !revealChallenge_spec. cbv zeta.
  change (wsReads (set_makeChallenges b w)) with (wsReads w).
  destruct (_ <? _)%nat; reflexivity.
Qed.

Lemma commitToChallenge_ignores_flag env txDataToSign b w :
  commitToChallenge env txDataToSign (set_makeChallenges b w) =
  (fst (commitToChallenge env txDataToSign w),
   set_makeChallenges b (snd (commitToChallenge env txDataToSign w))).
Proof.
  rewrite !commitToChallenge_spec.
  destruct (soliditySha3 env txDataToSign); [|reflexivity]. cbv zeta.
  change (wsReads (set_makeChallenges b w)) with (wsReads w).
  destruct (_ <? _)%nat; reflexivity.
Qed.

(** C9. Turning challenges off only keeps new challenges from starting.
    With the flag off, [createChallenge] builds nothing, starts no commit
    task, saves no commit record and sends nothing: it logs a notice and
    returns. A reveal asked for while the flag is off is sent as soon as
    the socket is open, and both [revealChallenge] and [commitToChallenge]
    behave the same whatever the flag: the flag is never read by a
    challenge in flight. [stopMakingChallenges] itself changes the flag
    and the log, and nothing else. *)
Theorem toggling_off_only_stops_new_challenges env block transactions err txDataToSign w :
  makeChallenges w = false ->
  wsOpen env (wsReads w) = true ->
  createChallenge env block transactions err w
    = (Normal tt, addLog LInfo faultyBlockNotice w) /\
  revealChallenge env txDataToSign w
    = (Normal tt,
       advance 1 [ELog LDebug revealDebug; EWsSend (mkWsMessage "challenge" txDataToSign)] w) /\
  (forall b w0,
     revealChallenge env txDataToSign (set_makeChallenges b w0) =
     (fst (revealChallenge env txDataToSign w0),
      set_makeChallenges b (snd (revealChallenge env txDataToSign w0)))) /\
  (forall b w0,
     commitToChallenge env txDataToSign (set_makeChallenges b w0) =
     (fst (commitToChallenge env txDataToSign w0),
      set_makeChallenges b (snd (commitToChallenge env txDataToSign w0)))) /\
  (forall w0,
     stopMakingChallenges w0
     = (Normal tt, set_makeChallenges false (addLog LInfo "Challenges OFF" w0))).
Proof.
  intros Hoff Hopen. split; [|split; [|split; [|split]]].
  - rewrite createChallenge_unfold, Hoff. reflexivity.
  - rewrite revealChallenge_spec. cbv zeta. unfold pollFuel.
    rewrite closedReads_open_now by exact Hopen. reflexivity.
  - intros b w0. apply revealChallenge_ignores_flag.
  - intros b w0. apply commitToChallenge_ignores_flag.
  - intro w0. reflexivity.
Qed.

Lemma toggling_off_only_stops_new_challenges_witness :
  let env := demoEnv alwaysOpen accept in
  let w := emptyWorld false in
  createChallenge env block0 [tx1] (mkBlockError 2 "invalid block" (mkMetadata 0 0)) w
    = (Normal tt, addLog LInfo faultyBlockNotice w) /\
  revealChallenge env (Some challengePayload) w
    = (Normal tt,
       advance 1 [ELog LDebug revealDebug;
                  EWsSend (mkWsMessage "challenge" (Some challengePayload))] w).
Proof.
  cbv zeta.
  pose proof (toggling_off_only_stops_new_challenges
                (demoEnv alwaysOpen accept) block0 [tx1]
                (mkBlockError 2 "invalid block" (mkMetadata 0 0))
                (Some challengePayload) (emptyWorld false) eq_refl eq_refl) as H.
  destruct H as [Hcreate [Hreveal _]]. split; [exact Hcreate|exact Hreveal].
Defined.

(** ** The retry cap *)




(** ** Deliveries *)

Lemma commitMessages_app t u :
  commitMessages (t ++ u) = commitMessages t ++ commitMessages u.
Proof. unfold commitMessages. apply flat_map_app. Qed.

Lemma commitMessages_quiet t : Forall quiet t -> commitMessages t = [].
Proof.
  induction 1 as [|e t He Ht IH]; [reflexivity|].
  change (e :: t) with ([e] ++ t). rewrite commitMessages_app, IH.
  destruct e; simpl in *; try reflexivity. destruct He.
Qed.

Lemma nth_error_last {A} (xs : list A) (x : A) :
  nth_error (xs ++ [x]) (List.length (xs ++ [x]) - 1) = Some x.
Proof.
  rewrite length_app. simpl. replace (List.length xs + 1 - 1)%nat with (List.length xs) by lia.
  rewrite nth_error_app2 by lia. rewrite Nat.sub_diag. reflexivity.
Qed.

Lemma removeNth_last {A} (xs : list A) (x : A) :
  removeNth (List.length (xs ++ [x]) - 1) (xs ++ [x]) = xs.
Proof.
  rewrite length_app. simpl. replace (List.length xs + 1 - 1)%nat with (List.length xs) by lia.
  induction xs as [|y xs IH]; simpl; [reflexivity|]. rewrite IH. reflexivity.
Qed.

(** C5, as stated, fails: the same invalidity (same block, same error
    code) delivered twice to [createChallenge]. The second delivery draws
    a new salt, saves a second commit record and sends a second commit
    message. *)
Lemma second_delivery_commits_again :
  let env := demoEnv alwaysOpen accept in
  let err := mkBlockError 2 "invalid block" (mkMetadata 0 0) in
  let w1 := deliver env block0 [tx1] err (emptyWorld true) in
  let w2 := deliver env block0 [tx1] err w1 in
  List.length (commitsDb w1) = 1%nat /\ List.length (commitMessages (trace w1)) = 1%nat /\
  List.length (commitsDb w2) = 2%nat /\ List.length (commitMessages (trace w2)) = 2%nat /\
  commitsDb w2 <> commitsDb w1 /\ commitMessages (trace w2) <> commitMessages (trace w1).
Proof.
  vm_compute. repeat split; discriminate.
Qed.

(** C5, amended. The coordinator keeps no account of the invalidities it
    was given: every delivery made while challenges are on, for which a
    payload is built and hashed, saves one more commit record and, the
    socket being open, sends one more commit message, whatever was
    delivered before. *)
Theorem every_delivery_commits env block transactions err txDataToSign h w w1 :
  makeChallenges w = true ->
  buildChallenge env block transactions err (rand env (saltsDrawn w))
    (set_saltsDrawn (S (saltsDrawn w)) w) = (Normal txDataToSign, w1) ->
  soliditySha3 env txDataToSign = Normal h ->
  wsOpen env (wsReads w) = true ->
  let w' := deliver env block transactions err w in
  commitsDb w' = commitsDb w ++ [mkCommitRecord h txDataToSign] /\
  commitMessages (trace w') = commitMessages (trace w) ++ [commitMessage h] /\
  tasks w' = tasks w.
Proof.
  intros Hon Hbuild Hh Hopen. cbv zeta.
  pose proof (readonly_buildChallenge env block transactions err (rand env (saltsDrawn w))
                (set_saltsDrawn (S (saltsDrawn w)) w)) as Hro.
  pose proof (quietly_buildChallenge env block transactions err (rand env (saltsDrawn w))
                (set_saltsDrawn (S (saltsDrawn w)) w)) as [_ [t [Ht Hq]]].
  rewrite Hbuild in Hro, Ht. cbn [fst snd] in Hro, Ht.
  destruct Hro as [_ [_ [_ [_ [_ [Hc [_ [Hreads [Htasks _]]]]]]]]].
  cbn in Hc, Hreads, Htasks, Ht.
  assert (Hd : deliver env block transactions err w =
               advance 1
                 [ELog LDebug commitDebug; ESaveCommit h txDataToSign;
                  EWsSend (commitMessage h)]
                 (withCommit h txDataToSign (set_tasks (tasks w1) w1))).
  { unfold deliver.
    rewrite createChallenge_unfold, Hon, Hbuild. cbn [fst snd].
    unfold handle. unfold bind at 1. unfold gets. cbn [fst snd].
    replace (tasks (set_tasks (tasks w1 ++ [CommitTask txDataToSign]) w1))
      with (tasks w1 ++ [CommitTask txDataToSign]) by reflexivity.
    rewrite nth_error_last, removeNth_last.
    unfold bind at 1. unfold modify at 1. cbn [fst snd].
    unfold runTask, tryCatch. rewrite commitToChallenge_spec, Hh. cbv zeta.
    replace (wsReads (set_tasks (tasks w1)
                        (set_tasks (tasks w1 ++ [CommitTask txDataToSign]) w1)))
      with (wsReads w1) by reflexivity.
    rewrite Hreads. unfold pollFuel. rewrite closedReads_open_now by exact Hopen.
    reflexivity. }
  rewrite Hd. unfold advance, withCommit. world_simpl.
  rewrite Hc, Ht, Htasks. split; [reflexivity|]. split; [|reflexivity].
  rewrite !commitMessages_app. rewrite (commitMessages_quiet t Hq), app_nil_r.
  reflexivity.
Qed.

Lemma every_delivery_commits_witness :
  let env := demoEnv alwaysOpen accept in
  let err := mkBlockError 2 "invalid block" (mkMetadata 0 0) in
  let w := deliver env block0 [tx1] err (emptyWorld true) in
  let w' := deliver env block0 [tx1] err w in
  commitsDb w' =
    commitsDb w ++ [mkCommitRecord 2003 (Some (challengeTransactionType block0 [tx1] 0 1001))] /\
  commitMessages (trace w') = commitMessages (trace w) ++ [commitMessage 2003] /\
  tasks w' = tasks w.
Proof.
  cbv zeta.
  exact (every_delivery_commits
           (demoEnv alwaysOpen accept) block0 [tx1]
           (mkBlockError 2 "invalid block" (mkMetadata 0 0))
           (Some (challengeTransactionType block0 [tx1] 0 1001)) 2003
           (deliver (demoEnv alwaysOpen accept) block0 [tx1]
              (mkBlockError 2 "invalid block" (mkMetadata 0 0)) (emptyWorld true))
           _ eq_refl eq_refl eq_refl eq_refl).
Defined.

(** ** Removal of a block-proposed event *)







Lemma blockProposedEventHandler_store env n l1 block transactions w :
  let w1 := snd (blockProposedEventHandler env n l1 block transactions w) in
  let wc := worldAtCheck env n l1 block transactions w in
  blocks w1 = blocks wc /\ nullifierDb w1 = nullifierDb wc /\ timberDb w1 = timberDb wc.
Proof.
  cbv zeta. rewrite blockProposedEventHandler_unfold. cbv zeta.
  destruct (checkBlock env _ block transactions) as [[]|err]; [repeat split|].
  destruct err; try (repeat split; fail).
  destruct (createChallenge_store env block transactions e
              (addLog LWarn "Block Checker - Block invalid"
                 (worldAtCheck env n l1 block transactions w)))
    as [Hb [Hn [Ht _]]].
  rewrite Hb, Hn, Ht. repeat split.
Qed.



(** ** A double spend after a reorg *)

(** C4 on the code: the block [blockA] spends the nullifier 7 and is
    removed by a reorg; [blockB] spends the nullifier 9; [blockC] spends 7
    again and 9 a second time. The checker refuses [blockC] with code 6,
    because 9 is stamped by the live block [blockB]. The handler has by
    then stamped 7 with [blockC] itself, and the record of 7 comes first
    in the collection: the challenge built names [blockC] as the block
    that already held the nullifier, not [blockB]. *)
Theorem double_spend_challenge_names_the_block_itself :
  let env := demoEnv alwaysOpen checkDuplicateNullifier in
  let w := run env doubleSpendInputs doubleSpendStart in
  liveConflicts w blockC 9 = [blockHash blockB] /\
  nullifierDb w = [mkNullifierRecord 7 (Some (blockHash blockC));
                   mkNullifierRecord 9 (Some (blockHash blockB))] /\
  tasks w =
    [CommitTask (Some (challengeNullifier blockC [txYX] (Some 0) (Some 0)
                         blockC [txYX] (Some 0) (Some 0) 1000))].
Proof. vm_compute. repeat split. Qed.

(** * Further properties of the code *)

(** ** Computations that only log *)

Lemma logsOnly_ret {A} (a : A) : logsOnly (ret a).
Proof. intro w. exists []. destruct w. rewrite app_nil_r. split; [reflexivity|auto]. Qed.

Lemma logsOnly_throw {A} (e : Thrown) : logsOnly (@throw A e).
Proof. intro w. exists []. destruct w. rewrite app_nil_r. split; [reflexivity|auto]. Qed.

Lemma logsOnly_gets {A} (f : World -> A) : logsOnly (gets f).
Proof. intro w. exists []. destruct w. rewrite app_nil_r. split; [reflexivity|auto]. Qed.

Lemma logsOnly_logger lvl msg : logsOnly (logger lvl msg).
Proof. intro w. exists [ELog lvl msg]. split; [reflexivity|]. repeat constructor. Qed.

Lemma logsOnly_bind {A B} (m : M A) (k : A -> M B) :
  logsOnly m -> (forall a, logsOnly (k a)) -> logsOnly (bind m k).
Proof.
  intros Hm Hk w. unfold bind. destruct (Hm w) as [t [Hw Ht]].
  destruct (m w) as [[a|e] w1]; simpl in *.
  - destruct (Hk a w1) as [t' [Hw' Ht']]. exists (t ++ t').
    rewrite Hw', Hw. world_simpl. rewrite app_assoc. split; [reflexivity|].
    apply Forall_app; auto.
  - exists t. auto.
Qed.

Lemma logsOnly_mapM {A B} (f : A -> M B) (xs : list A) :
  (forall x, logsOnly (f x)) -> logsOnly (mapM f xs).
Proof.
  intro Hf. induction xs as [|x xs IH]; simpl; [apply logsOnly_ret|].
  apply logsOnly_bind; [apply Hf|]. intro y.
  apply logsOnly_bind; [apply IH|]. intro ys. apply logsOnly_ret.
Qed.

Ltac logs_step :=
  match goal with
  | |- forall x, logsOnly (@?m x) => intro
  | |- logsOnly (bind _ _) => apply logsOnly_bind
  | |- logsOnly (mapM _ _) => apply logsOnly_mapM
  | |- logsOnly (ret _) => apply logsOnly_ret
  | |- logsOnly (throw _) => apply logsOnly_throw
  | |- logsOnly (gets _) => apply logsOnly_gets
  | |- logsOnly (logger _ _) => apply logsOnly_logger
  | |- logsOnly (match ?x with _ => _ end) => destruct x
  | |- logsOnly (let '(_, _) := ?x in _) => destruct x
  end.

Lemma logsOnly_buildChallenge env block transactions err salt :
  logsOnly (buildChallenge env block transactions err salt).
Proof.
  unfold buildChallenge, challengeIncorrectRoot, challengeDuplicateTransaction,
    challengeInvalidTransactionType, challengeIncorrectHistoricRoot,
    challengeProofDoesNotVerify, challengeDuplicateNullifier,
    challengeIncorrectLeafCount, buildSolidityStruct,
    getBlockByBlockHash, getBlockByBlockNumberL2, getBlockByTransactionHash,
    getTransactionsByTransactionHashes, retrieveMinedNullifiers, getTreeByRoot.
  repeat match goal with
         | |- logsOnly (match ?x with _ => _ end) => destruct x
         end;
    repeat logs_step.
Qed.

(** ** What a computation returns *)

Lemma returns_ret {A} (P : A -> Prop) (a : A) : P a -> returns P (ret a).
Proof. intros Ha w a' w' H. injection H as <- _. exact Ha. Qed.

Lemma returns_throw {A} (P : A -> Prop) (e : Thrown) : returns P (throw e).
Proof. intros w a w' H. discriminate H. Qed.

Lemma returns_bind {A B} (P : B -> Prop) (m : M A) (k : A -> M B) :
  (forall a, returns P (k a)) -> returns P (bind m k).
Proof.
  intros Hk w b w' H. unfold bind in H.
  destruct (m w) as [[a|e] w1]; [|discriminate]. exact (Hk a w1 b w' H).
Qed.

Ltac returns_step :=
  match goal with
  | |- forall x, returns _ (@?m x) => intro
  | |- returns _ (bind _ _) => apply returns_bind
  | |- returns _ (throw _) => apply returns_throw
  | |- returns _ (match ?x with _ => _ end) => destruct x
  | |- returns _ (let '(_, _) := ?x in _) => destruct x
  | |- returns _ (ret _) => apply returns_ret
  end.

Lemma buildChallenge_salt env block transactions err salt :
  returns (fun o => forall tx, o = Some tx -> saltOf tx = salt)
          (buildChallenge env block transactions err salt).
Proof.
  unfold buildChallenge, challengeIncorrectRoot, challengeDuplicateTransaction,
    challengeInvalidTransactionType, challengeIncorrectHistoricRoot,
    challengeProofDoesNotVerify, challengeDuplicateNullifier,
    challengeIncorrectLeafCount.
  repeat match goal with
         | |- returns _ (match ?x with _ => _ end) => destruct x
         end;
    repeat returns_step;
    intros tx Htx; try discriminate Htx; injection Htx as <-; reflexivity.
Qed.

(** [createChallenge], challenges being on: one salt is drawn, the store
    is left alone, and a commit task is started unless the construction of
    the payload throws. *)
Lemma createChallenge_on env block transactions err w :
  makeChallenges w = true ->
  exists t c,
    Forall isLog t /\
    fst (buildChallenge env block transactions err (rand env (saltsDrawn w))
           (set_saltsDrawn (S (saltsDrawn w)) w)) = c /\
    createChallenge env block transactions err w =
    match c with
    | Normal o =>
        (Normal tt,
         set_tasks (tasks w ++ [CommitTask o])
           (set_trace (trace w ++ t) (set_saltsDrawn (S (saltsDrawn w)) w)))
    | Throw e =>
        (Throw e, set_trace (trace w ++ t) (set_saltsDrawn (S (saltsDrawn w)) w))
    end.
Proof.
  intro Hon. rewrite createChallenge_unfold, Hon.
  destruct (logsOnly_buildChallenge env block transactions err (rand env (saltsDrawn w))
              (set_saltsDrawn (S (saltsDrawn w)) w)) as [t [Hw Ht]].
  exists t. destruct (buildChallenge _ _ _ _ _ _) as [[o|e] w1]; cbn [fst snd] in *.
  - exists (Normal o). repeat split; [exact Ht|]. rewrite Hw. reflexivity.
  - exists (Throw e). repeat split; [exact Ht|]. rewrite Hw. reflexivity.
Qed.

(** X1. Every call of [createChallenge] made while challenges are on draws
    exactly one salt, whether or not a payload can be built, and a call
    made while they are off draws none; a payload that is handed to a new
    commit task carries the salt drawn by that call. *)
Theorem one_salt_per_challenge env block transactions err w :
  let r := createChallenge env block transactions err w in
  saltsDrawn (snd r) = (if makeChallenges w then S (saltsDrawn w) else saltsDrawn w) /\
  (forall tx,
     In (CommitTask (Some tx)) (tasks (snd r)) ->
     In (CommitTask (Some tx)) (tasks w) \/ saltOf tx = rand env (saltsDrawn w)).
Proof.
  cbv zeta. destruct (makeChallenges w) eqn:Hon.
  - destruct (createChallenge_on env block transactions err w Hon) as [t [c [_ [Hc Hrun]]]].
    rewrite Hrun. destruct c as [o|e]; cbn [fst snd]; world_simpl.
    + split; [reflexivity|]. intros tx Hin. apply in_app_or in Hin.
      destruct Hin as [Hin|[Heq|[]]]; [left; exact Hin|right].
      injection Heq as ->.
      destruct (buildChallenge env block transactions err (rand env (saltsDrawn w))
                  (set_saltsDrawn (S (saltsDrawn w)) w)) as [c' w1] eqn:Hb.
      cbn [fst] in Hc. subst c'.
      exact (buildChallenge_salt env block transactions err _ _ _ _ Hb tx eq_refl).
    + split; [reflexivity|]. intros tx Hin. left. exact Hin.
  - rewrite createChallenge_unfold, Hon. cbn [fst snd]. unfold addLog. world_simpl.
    split; [reflexivity|]. intros tx Hin. left. exact Hin.
Qed.

(** ** [findIndex] and [indexOf] *)

Lemma findIndexFrom_spec {A} (p : A -> bool) (xs : list A) :
  forall k,
    0 <= k ->
    (findIndexFrom p xs k = -1 /\ forallb (fun x => negb (p x)) xs = true) \/
    (k <= findIndexFrom p xs k /\
     exists x, nth_error xs (Z.to_nat (findIndexFrom p xs k - k)) = Some x /\ p x = true /\
               forallb (fun y => negb (p y))
                       (firstn (Z.to_nat (findIndexFrom p xs k - k)) xs) = true).
Proof.
  induction xs as [|x xs IH]; intros k Hk; simpl.
  - left. split; reflexivity.
  - destruct (p x) eqn:Hp.
    + right. split; [lia|]. exists x. rewrite Z.sub_diag. simpl. auto.
    + destruct (IH (k + 1)) as [[Hnone Hall]|[Hle [y [Hy [Hpy Hbefore]]]]]; [lia| |].
      * left. split; [exact Hnone|]. simpl. exact Hall.
      * right. split; [lia|]. exists y.
        replace (Z.to_nat (findIndexFrom p xs (k + 1) - k))
          with (S (Z.to_nat (findIndexFrom p xs (k + 1) - (k + 1)))) by lia.
        simpl. rewrite Hp. simpl. auto.
Qed.

(** [findIndex] returns -1 exactly when no element satisfies the test, and
    otherwise the position of the first element that does. *)
Lemma findIndex_hit {A} (p : A -> bool) (xs : list A) :
  findIndex p xs <> -1 ->
  0 <= findIndex p xs /\
  exists x, at_index xs (findIndex p xs) = Some x /\ p x = true /\
            forallb (fun y => negb (p y)) (firstn (Z.to_nat (findIndex p xs)) xs) = true.
Proof.
  intro Hne. unfold findIndex in *.
  destruct (findIndexFrom_spec p xs 0) as [[Hnone _]|[Hle [x [Hx [Hp Hb]]]]];
    [lia|contradiction|].
  split; [exact Hle|]. exists x. unfold at_index.
  destruct (findIndexFrom p xs 0 <? 0) eqn:E; [apply Z.ltb_lt in E; lia|].
  rewrite Z.sub_0_r in Hx, Hb. auto.
Qed.

Lemma findIndex_none {A} (p : A -> bool) (xs : list A) :
  findIndex p xs = -1 <-> forallb (fun x => negb (p x)) xs = true.
Proof.
  unfold findIndex. split.
  - intro H.
    destruct (findIndexFrom_spec p xs 0) as [[_ Hall]|[Hle _]]; [lia|exact Hall|lia].
  - intro Hall.
    destruct (findIndexFrom_spec p xs 0) as [[Hnone _]|[Hle [x [Hx [Hp Hb]]]]];
      [lia|exact Hnone|].
    apply nth_error_In in Hx. rewrite forallb_forall in Hall.
    specialize (Hall x Hx). rewrite Hp in Hall. discriminate.
Qed.

(** ** The cases of [createChallenge], computed *)

Lemma challengeDuplicateTransaction_spec block transactions err salt w :
  challengeDuplicateTransaction block transactions err salt w =
  match filter (fun b => negb (blockHash (storedBlock b) =? blockHash block))
          (filter (fun b => includes (transactionHashes (storedBlock b))
                                     (mTransactionHash (metadata err)))
                  (blocks w)) with
  | [] =>
      (Throw (JsTypeError
                "Cannot read properties of undefined (reading 'transactionHashes')"), w)
  | block2 :: _ =>
      let transactions2 := storedTransactions w (transactionHashes (storedBlock block2)) in
      let transactionIndex2 :=
        indexOf (map transactionHash transactions2) (mTransactionHash (metadata err)) in
      if transactionIndex2 =? -1
      then (Throw (JsError "Could not find duplicate transaction"), w)
      else (Normal (Some (challengeNoDuplicateTransaction
                            block (storedBlock block2) transactions transactions2
                            (transactionHashIndex (metadata err)) transactionIndex2 salt)),
            w)
  end.
Proof.
  unfold challengeDuplicateTransaction, getBlockByTransactionHash,
    getTransactionsByTransactionHashes, storedTransactions.
  unfold bind at 1. unfold gets at 1. cbn [fst snd].
  destruct (filter _ (filter _ (blocks w))) as [|block2 rest]; [reflexivity|].
  unfold bind, gets. cbn [fst snd]. cbv zeta.
  destruct (_ =? -1); reflexivity.
Qed.

(** X2. When [createChallenge] builds the payload of a duplicate
    transaction (code 1), the second block of the payload is a stored
    block other than the challenged one that lists the duplicated hash,
    and the second index is the position of that hash among the stored
    transactions of that block. The challenged block is never named as its
    own duplicate. *)
Theorem duplicate_transaction_challenge_names_another_block
    env block transactions err salt w txDataToSign w' :
  code err = 1 ->
  buildChallenge env block transactions err salt w = (Normal (Some txDataToSign), w') ->
  exists block2 transactionIndex2,
    txDataToSign =
      challengeNoDuplicateTransaction block (storedBlock block2) transactions
        (storedTransactions w (transactionHashes (storedBlock block2)))
        (transactionHashIndex (metadata err)) transactionIndex2 salt /\
    In block2 (blocks w) /\
    blockHash (storedBlock block2) <> blockHash block /\
    includes (transactionHashes (storedBlock block2)) (mTransactionHash (metadata err)) = true /\
    0 <= transactionIndex2 /\
    option_map transactionHash
      (at_index (storedTransactions w (transactionHashes (storedBlock block2)))
                transactionIndex2)
    = Some (mTransactionHash (metadata err)).
Proof.
  intros Hcode Hbuild. unfold buildChallenge in Hbuild. rewrite Hcode in Hbuild.
  rewrite challengeDuplicateTransaction_spec in Hbuild.
  destruct (filter _ (filter _ (blocks w))) as [|block2 rest] eqn:Hfilter;
    [discriminate|].
  cbv zeta in Hbuild.
  destruct (indexOf _ _ =? -1) eqn:Hidx; [discriminate|].
  injection Hbuild as <- _.
  exists block2, (indexOf (map transactionHash
                             (storedTransactions w (transactionHashes (storedBlock block2))))
                          (mTransactionHash (metadata err))).
  assert (Hin : In block2 (filter (fun b => negb (blockHash (storedBlock b) =? blockHash block))
                             (filter (fun b => includes (transactionHashes (storedBlock b))
                                                        (mTransactionHash (metadata err)))
                                     (blocks w)))).
  { rewrite Hfilter. left. reflexivity. }
  apply filter_In in Hin. destruct Hin as [Hin Hother].
  apply filter_In in Hin. destruct Hin as [Hin Hholds].
  apply Z.eqb_neq in Hidx. unfold indexOf in *.
  destruct (findIndex_hit _ _ Hidx) as [Hpos [x [Hx [Hp _]]]].
  repeat split; try assumption.
  - apply negb_true_iff in Hother. apply Z.eqb_neq in Hother. exact Hother.
  - unfold at_index in *.
    destruct (findIndex _ _ <? 0); [discriminate|].
    rewrite nth_error_map in Hx.
    destruct (nth_error _ _) as [t|]; [|discriminate].
    simpl in *. injection Hx as <-. apply Z.eqb_eq in Hp. congruence.
Qed.

Lemma duplicate_transaction_challenge_names_another_block_witness :
  exists block2 transactionIndex2,
    challengeNoDuplicateTransaction blockE blockD [txY; txX] [txX] 1 0 1000 =
      challengeNoDuplicateTransaction blockE (storedBlock block2) [txY; txX]
        (storedTransactions duplicateWorld (transactionHashes (storedBlock block2)))
        (transactionHashIndex (metadata duplicateError)) transactionIndex2 1000 /\
    In block2 (blocks duplicateWorld) /\
    blockHash (storedBlock block2) <> blockHash blockE /\
    includes (transactionHashes (storedBlock block2))
             (mTransactionHash (metadata duplicateError)) = true /\
    0 <= transactionIndex2 /\
    option_map transactionHash
      (at_index (storedTransactions duplicateWorld (transactionHashes (storedBlock block2)))
                transactionIndex2)
    = Some (mTransactionHash (metadata duplicateError)).
Proof.
  exact (duplicate_transaction_challenge_names_another_block
           (demoEnv alwaysOpen accept) blockE [txY; txX] duplicateError 1000
           duplicateWorld _ duplicateWorld eq_refl eq_refl).
Defined.

(** X3. A block refused for an invalid transaction type (code 2) or an
    incorrect historic root (code 3) never makes the handler of
    block-proposed events throw: challenges being on, the payload is built
    from the block, its transactions, the index of the error and the salt
    alone, whatever the store holds, and one commit task is started with
    it. *)
Theorem type_and_historic_root_challenges_always_start
    env n l1 block transactions w e :
  checkBlock env (worldAtCheck env n l1 block transactions w) block transactions
    = Throw (JsBlockError e) ->
  code e = 2 \/ code e = 3 ->
  makeChallenges w = true ->
  let r := blockProposedEventHandler env n l1 block transactions w in
  let salt := rand env (saltsDrawn w) in
  fst r = Normal tt /\
  tasks (snd r) =
    tasks w ++
      [CommitTask
         (Some (if code e =? 2
                then challengeTransactionType block transactions
                       (transactionHashIndex (metadata e)) salt
                else challengeHistoricRoot block transactions
                       (transactionHashIndex (metadata e)) salt))].
Proof.
  intros Hcheck Hcode Hon. cbv zeta.
  rewrite blockProposedEventHandler_unfold. cbv zeta. rewrite Hcheck.
  rewrite createChallenge_unfold.
  replace (makeChallenges (addLog LWarn "Block Checker - Block invalid"
                             (worldAtCheck env n l1 block transactions w)))
    with (makeChallenges w) by reflexivity.
  rewrite Hon. unfold buildChallenge.
  destruct Hcode as [Hcode|Hcode]; rewrite Hcode; split; reflexivity.
Qed.

Lemma type_and_historic_root_challenges_always_start_witness :
  let env := demoEnv neverOpen (rejectWith 3) in
  let r := blockProposedEventHandler env 10 900 block0 [tx1] (emptyWorld true) in
  fst r = Normal tt /\
  tasks (snd r) = [CommitTask (Some (challengeHistoricRoot block0 [tx1] 0 1000))].
Proof.
  exact (type_and_historic_root_challenges_always_start
           (demoEnv neverOpen (rejectWith 3)) 10 900 block0 [tx1] (emptyWorld true)
           (mkBlockError 3 "invalid block" (mkMetadata 0 0))
           eq_refl (or_intror eq_refl) eq_refl).
Defined.

(** Codes that [createChallenge] has no case for. *)
Lemma buildChallenge_default env block transactions err salt w :
  code err <> 0 -> code err <> 1 -> code err <> 2 -> code err <> 3 ->
  code err <> 4 -> code err <> 6 -> code err <> 7 ->
  buildChallenge env block transactions err salt w = (Normal None, w).
Proof.
  intros H0 H1 H2 H3 H4 H6 H7. unfold buildChallenge.
  destruct (code err) as [|p|p]; [contradiction| |reflexivity].
  destruct p as [[[p|p|]|[p|p|]|]|[[p|p|]|[p|p|]|]|];
    try reflexivity; contradiction.
Qed.

Lemma challengeDuplicateNullifier_none block transactions salt w :
  (forall r, In r (nullifierDb w) -> nBlockHash r <> None ->
             includes (flat_map nullifiers transactions) (hash r) = false) ->
  challengeDuplicateNullifier block transactions salt w = (Normal None, w).
Proof.
  intro Hnone. unfold challengeDuplicateNullifier, retrieveMinedNullifiers.
  unfold bind at 1. unfold gets. cbn [fst snd].
  destruct (filter _ (filter _ (nullifierDb w))) as [|r rest] eqn:Hf; [reflexivity|].
  exfalso.
  assert (Hin : In r (filter (fun sNull => includes (flat_map nullifiers transactions)
                                                    (hash sNull))
                        (filter (fun r => match nBlockHash r with
                                          | Some _ => true
                                          | None => false
                                          end) (nullifierDb w)))).
  { rewrite Hf. left. reflexivity. }
  apply filter_In in Hin. destruct Hin as [Hin Hinc].
  apply filter_In in Hin. destruct Hin as [Hin Hst].
  rewrite Hnone in Hinc; [discriminate|exact Hin|].
  destruct (nBlockHash r); [discriminate|discriminate Hst].
Qed.

(** X4. When [createChallenge] has nothing to build, it commits all the
    same: for an error code outside its cases (the reserved code 5, say),
    and for code 6 when no stamped nullifier record matches a nullifier of
    the block, [txDataToSign] is never assigned and, challenges being on,
    [commitToChallenge(undefined)] is started; the call itself returns. *)
Theorem nothing_to_challenge_still_commits env block transactions err w :
  makeChallenges w = true ->
  (code err <> 0 /\ code err <> 1 /\ code err <> 2 /\ code err <> 3 /\
   code err <> 4 /\ code err <> 6 /\ code err <> 7) \/
  (code err = 6 /\
   forall r, In r (nullifierDb w) -> nBlockHash r <> None ->
             includes (flat_map nullifiers transactions) (hash r) = false) ->
  createChallenge env block transactions err w =
    (Normal tt, set_tasks (tasks w ++ [CommitTask None])
                  (set_saltsDrawn (S (saltsDrawn w)) w)).
Proof.
  intros Hon Hcase. rewrite createChallenge_unfold, Hon.
  destruct Hcase as [[H0 [H1 [H2 [H3 [H4 [H6 H7]]]]]]|[Hcode Hnone]].
  - rewrite buildChallenge_default by assumption. reflexivity.
  - unfold buildChallenge. rewrite Hcode.
    rewrite challengeDuplicateNullifier_none by exact Hnone. reflexivity.
Qed.

Lemma nothing_to_challenge_still_commits_witness :
  createChallenge (demoEnv alwaysOpen accept) block0 [tx1]
    (mkBlockError 5 "reserved" (mkMetadata 0 0)) (emptyWorld true) =
    (Normal tt, set_tasks (tasks (emptyWorld true) ++ [CommitTask None])
                  (set_saltsDrawn (S (saltsDrawn (emptyWorld true))) (emptyWorld true))).
Proof.
  apply (nothing_to_challenge_still_commits
           (demoEnv alwaysOpen accept) block0 [tx1]
           (mkBlockError 5 "reserved" (mkMetadata 0 0)) (emptyWorld true) eq_refl).
  left. cbn. repeat split; discriminate.
Defined.

(** ** Positions of a nullifier *)

Lemma includes_findIndex (xs : list Hash) (n : Hash) :
  findIndex (Z.eqb n) xs = -1 <-> includes xs n = false.
Proof.
  rewrite findIndex_none. unfold includes.
  induction xs as [|x xs IH]; simpl; [tauto|].
  destruct (n =? x); simpl; [split; discriminate|exact IH].
Qed.

Lemma nullifierPosition_from transactions n :
  forall k,
    0 <= k ->
    match filter (fun idxs : Z * Z => snd idxs >=? 0)
            (mapi_from (fun t txIndex => (txIndex, findIndex (Z.eqb n) (nullifiers t)))
                       transactions k) with
    | [] => Forall (fun t => includes (nullifiers t) n = false) transactions
    | (i, j) :: _ =>
        k <= i /\ 0 <= j /\
        exists t, nth_error transactions (Z.to_nat (i - k)) = Some t /\
                  at_index (nullifiers t) j = Some n
    end.
Proof.
  induction transactions as [|t ts IH]; intros k Hk; simpl; [constructor|].
  destruct (findIndex (Z.eqb n) (nullifiers t) >=? 0) eqn:Hge.
  - assert (Hne : findIndex (Z.eqb n) (nullifiers t) <> -1) by lia.
    destruct (findIndex_hit _ _ Hne) as [Hpos [x [Hx [Hp _]]]].
    apply Z.eqb_eq in Hp. subst x.
    split; [lia|]. split; [exact Hpos|]. exists t. rewrite Z.sub_diag. auto.
  - specialize (IH (k + 1)).
    destruct (filter _ (mapi_from _ ts (k + 1))) as [|[i j] rest].
    + constructor; [|apply IH; lia].
      apply includes_findIndex.
      destruct (Z.eq_dec (findIndex (Z.eqb n) (nullifiers t)) (-1)) as [E|E]; [exact E|].
      destruct (findIndex_hit _ _ E) as [Hpos _]. lia.
    + destruct IH as [Hle [Hj [t' [Ht' Hn]]]]; [lia|].
      split; [lia|]. split; [exact Hj|]. exists t'.
      replace (Z.to_nat (i - k)) with (S (Z.to_nat (i - (k + 1)))) by lia.
      auto.
Qed.

(** The pair of indices that case 6 destructures: either both undefined,
    when no transaction holds the nullifier, or the position of the
    nullifier in the first transaction that holds it. *)
Lemma nullifierPosition_spec transactions n :
  match nullifierPosition transactions n with
  | (None, None) => Forall (fun t => includes (nullifiers t) n = false) transactions
  | (Some i, Some j) =>
      exists t, at_index transactions i = Some t /\ at_index (nullifiers t) j = Some n
  | _ => False
  end.
Proof.
  unfold nullifierPosition, mapi.
  pose proof (nullifierPosition_from transactions n 0 (Z.le_refl 0)) as H.
  destruct (filter _ _) as [|[i j] rest]; [exact H|].
  destruct H as [Hi [Hj [t [Ht Hn]]]]. exists t. split; [|exact Hn].
  unfold at_index. destruct (i <? 0) eqn:E; [apply Z.ltb_lt in E; lia|].
  rewrite Z.sub_0_r in Ht. exact Ht.
Qed.

Lemma includes_flat_map_nullifiers transactions n :
  includes (flat_map nullifiers transactions) n = true ->
  ~ Forall (fun t => includes (nullifiers t) n = false) transactions.
Proof.
  unfold includes. intros Hin Hall. apply existsb_exists in Hin.
  destruct Hin as [x [Hx Heq]]. apply in_flat_map in Hx. destruct Hx as [t [Ht Hxt]].
  rewrite Forall_forall in Hall. specialize (Hall t Ht).
  assert (existsb (Z.eqb n) (nullifiers t) = true) by (apply existsb_exists; eauto).
  congruence.
Qed.

Lemma challengeDuplicateNullifier_spec block transactions salt w :
  challengeDuplicateNullifier block transactions salt w =
  match filter (fun sNull => includes (flat_map nullifiers transactions) (hash sNull))
          (filter (fun r => match nBlockHash r with Some _ => true | None => false end)
                  (nullifierDb w)) with
  | [] => (Normal None, w)
  | n :: _ =>
      match match nBlockHash n with
            | Some h => find (fun b => blockHash (storedBlock b) =? h) (blocks w)
            | None => None
            end with
      | None =>
          (Throw (JsTypeError
                    "Cannot read properties of null (reading 'transactionHashes')"), w)
      | Some oldBlock =>
          let oldBlockTransactions :=
            storedTransactions w (transactionHashes (storedBlock oldBlock)) in
          (Normal (Some (challengeNullifier block transactions
                           (fst (nullifierPosition transactions (hash n)))
                           (snd (nullifierPosition transactions (hash n)))
                           (storedBlock oldBlock) oldBlockTransactions
                           (fst (nullifierPosition oldBlockTransactions (hash n)))
                           (snd (nullifierPosition oldBlockTransactions (hash n)))
                           salt)), w)
      end
  end.
Proof.
  unfold challengeDuplicateNullifier, retrieveMinedNullifiers, getBlockByBlockHash,
    getTransactionsByTransactionHashes, storedTransactions.
  unfold bind at 1. unfold gets at 1. cbn [fst snd].
  destruct (filter _ (filter _ (nullifierDb w))) as [|n rest]; [reflexivity|].
  unfold bind at 1.
  destruct (nBlockHash n) as [h|]; unfold gets, ret; cbn [fst snd]; [|reflexivity].
  destruct (find _ (blocks w)) as [old|]; [|reflexivity].
  unfold bind; cbn [fst snd].
  destruct (nullifierPosition _ (hash n)) as [oi oj].
  destruct (nullifierPosition transactions (hash n)) as [ci cj]. reflexivity.
Qed.

(** X5. When [createChallenge] builds the payload of a duplicate nullifier
    (code 6), the nullifier is the hash of a stamped record, the old block
    is the stored block that stamped it, the indices given for the
    challenged block are always defined and locate that nullifier in its
    transactions, and the indices given for the old block either locate
    the same nullifier in the old block's stored transactions or are both
    undefined (when those transactions do not hold it). *)
Theorem duplicate_nullifier_challenge_locates_the_nullifier
    env block transactions err salt w txDataToSign w' :
  code err = 6 ->
  buildChallenge env block transactions err salt w = (Normal (Some txDataToSign), w') ->
  exists n oldBlock i j oldIdx,
    In n (nullifierDb w) /\
    nBlockHash n = Some (blockHash (storedBlock oldBlock)) /\
    In oldBlock (blocks w) /\
    txDataToSign =
      challengeNullifier block transactions (Some i) (Some j)
        (storedBlock oldBlock)
        (storedTransactions w (transactionHashes (storedBlock oldBlock)))
        (fst oldIdx) (snd oldIdx) salt /\
    (exists t, at_index transactions i = Some t /\ at_index (nullifiers t) j = Some (hash n)) /\
    match oldIdx with
    | (None, None) =>
        Forall (fun t => includes (nullifiers t) (hash n) = false)
               (storedTransactions w (transactionHashes (storedBlock oldBlock)))
    | (Some oi, Some oj) =>
        exists t,
          at_index (storedTransactions w (transactionHashes (storedBlock oldBlock))) oi
            = Some t /\
          at_index (nullifiers t) oj = Some (hash n)
    | _ => False
    end.
Proof.
  intros Hcode Hbuild. unfold buildChallenge in Hbuild. rewrite Hcode in Hbuild.
  rewrite challengeDuplicateNullifier_spec in Hbuild.
  destruct (filter _ (filter _ (nullifierDb w))) as [|n rest] eqn:Hf; [discriminate|].
  assert (Hin : In n (filter (fun sNull => includes (flat_map nullifiers transactions)
                                                    (hash sNull))
                        (filter (fun r => match nBlockHash r with
                                          | Some _ => true
                                          | None => false
                                          end) (nullifierDb w)))).
  { rewrite Hf. left. reflexivity. }
  apply filter_In in Hin. destruct Hin as [Hin Hinc].
  apply filter_In in Hin. destruct Hin as [Hin _].
  destruct (nBlockHash n) as [h|] eqn:Hstamp; [|discriminate].
  destruct (find _ (blocks w)) as [old|] eqn:Hfind; [|discriminate].
  apply find_some in Hfind. destruct Hfind as [Hold Hh]. apply Z.eqb_eq in Hh.
  cbv zeta in Hbuild. injection Hbuild as <- _.
  pose proof (nullifierPosition_spec transactions (hash n)) as Hcur.
  pose proof (nullifierPosition_spec
                (storedTransactions w (transactionHashes (storedBlock old))) (hash n))
    as Hprev.
  destruct (nullifierPosition transactions (hash n)) as [[i|] [j|]];
    try contradiction;
    [|exfalso; exact (includes_flat_map_nullifiers _ _ Hinc Hcur)].
  exists n, old, i, j,
    (nullifierPosition (storedTransactions w (transactionHashes (storedBlock old)))
       (hash n)).
  repeat split; try assumption.
  - congruence.
Qed.

Lemma duplicate_nullifier_challenge_locates_the_nullifier_witness :
  let w := set_nullifierDb [mkNullifierRecord 9 (Some 700)] duplicateWorld in
  exists n oldBlock i j oldIdx,
    In n (nullifierDb w) /\
    nBlockHash n = Some (blockHash (storedBlock oldBlock)) /\
    In oldBlock (blocks w) /\
    challengeNullifier blockC [txYX] (Some 0) (Some 1) blockD [txX] (Some 0) (Some 0) 1000 =
      challengeNullifier blockC [txYX] (Some i) (Some j)
        (storedBlock oldBlock)
        (storedTransactions w (transactionHashes (storedBlock oldBlock)))
        (fst oldIdx) (snd oldIdx) 1000 /\
    (exists t, at_index [txYX] i = Some t /\ at_index (nullifiers t) j = Some (hash n)) /\
    match oldIdx with
    | (None, None) =>
        Forall (fun t => includes (nullifiers t) (hash n) = false)
               (storedTransactions w (transactionHashes (storedBlock oldBlock)))
    | (Some oi, Some oj) =>
        exists t,
          at_index (storedTransactions w (transactionHashes (storedBlock oldBlock))) oi
            = Some t /\
          at_index (nullifiers t) oj = Some (hash n)
    | _ => False
    end.
Proof.
  cbv zeta.
  exact (duplicate_nullifier_challenge_locates_the_nullifier
           (demoEnv alwaysOpen accept) blockC [txYX]
           (mkBlockError 6 "duplicate nullifier" (mkMetadata 0 0)) 1000
           (set_nullifierDb [mkNullifierRecord 9 (Some 700)] duplicateWorld)
           _ (set_nullifierDb [mkNullifierRecord 9 (Some 700)] duplicateWorld)
           eq_refl eq_refl).
Defined.

(** ** Cases 0, 4 and 7 *)

Lemma challengeIncorrectRoot_spec env block transactions salt w :
  challengeIncorrectRoot env block transactions salt w =
  (match blockNumbered w (Z.of_N (blockNumberL2 block) - 1) with
   | None => Throw (JsError (priorBlockNotFound block))
   | Some priorBlock =>
       match blockNumbered w (Z.of_N (blockNumberL2 block) - 2) with
       | None => Throw (JsTypeError "Cannot set properties of null (setting 'root')")
       | Some priorPriorBlock =>
           match find (fun t => tRoot (tTree t) =? root (storedBlock priorPriorBlock))
                      (timberDb w) with
           | None => Throw (JsTypeError "Cannot read properties of null (reading 'frontier')")
           | Some snapshot =>
               let padding :=
                 TIMBER_HEIGHT env
                 - Z.of_nat (List.length (tFrontier (tTree snapshot))) + 1 in
               if padding <? 0 then Throw (JsRangeError "Invalid array length")
               else Normal (Some (challengeNewRootCorrect
                                    (storedBlock priorBlock)
                                    (storedTransactions w
                                       (transactionHashes (storedBlock priorBlock)))
                                    (tFrontier (tTree snapshot)
                                       ++ repeat ZERO (Z.to_nat padding))
                                    block transactions salt))
           end
       end
   end,
   addLog LDebug "Challenging incorrect root" w).
Proof.
  unfold challengeIncorrectRoot, blockNumbered, storedTransactions.
  unfold bind at 1. unfold logger at 1. unfold emit, modify. cbn [fst snd].
  unfold bind at 1. unfold getBlockByBlockNumberL2 at 1. unfold gets at 1. cbn [fst snd].
  replace (blocks (set_trace (trace w ++ [ELog LDebug "Challenging incorrect root"]) w))
    with (blocks w) by reflexivity.
  destruct (find (fun b : StoredBlock =>
                    Z.of_N (blockNumberL2 (storedBlock b))
                    =? Z.of_N (blockNumberL2 block) - 1) (blocks w)) as [prior|];
    [|reflexivity].
  unfold bind at 1. unfold getTransactionsByTransactionHashes at 1. unfold gets at 1.
  cbn [fst snd].
  unfold bind at 1. unfold getBlockByBlockNumberL2 at 1. unfold gets at 1. cbn [fst snd].
  replace (blocks (set_trace (trace w ++ [ELog LDebug "Challenging incorrect root"]) w))
    with (blocks w) by reflexivity.
  destruct (find (fun b : StoredBlock =>
                    Z.of_N (blockNumberL2 (storedBlock b))
                    =? Z.of_N (blockNumberL2 block) - 2) (blocks w)) as [priorPrior|];
    [|reflexivity].
  unfold bind at 1. unfold getTreeByRoot at 1. unfold gets at 1. cbn [fst snd].
  replace (timberDb (set_trace (trace w ++ [ELog LDebug "Challenging incorrect root"]) w))
    with (timberDb w) by reflexivity.
  destruct (find _ (timberDb w)) as [snapshot|]; [|reflexivity].
  cbn [option_map]. cbv zeta.
  destruct (_ <? 0); reflexivity.
Qed.

Lemma blockNumbered_nonneg w n b : blockNumbered w n = Some b -> 0 <= n.
Proof.
  intro H. destruct (Z_lt_ge_dec n 0) as [Hneg|Hpos]; [|lia].
  unfold blockNumbered in H. rewrite no_block_below_zero in H by exact Hneg.
  discriminate H.
Qed.

(** X7. When [createChallenge] builds the payload of an incorrect root
    (code 0), the challenged block is numbered 2 or more, the two blocks
    before it and the tree snapshot with the root of the earlier one are in
    the store, and the frontier of the payload is that snapshot's frontier
    followed by zeroes, [TIMBER_HEIGHT + 1] entries in all. A stored
    frontier longer than that gives a RangeError, not a payload. *)
Theorem incorrect_root_challenge_pads_the_frontier
    env block transactions err salt w txDataToSign w' :
  code err = 0 ->
  buildChallenge env block transactions err salt w = (Normal (Some txDataToSign), w') ->
  exists priorBlock priorPriorBlock snapshot frontier,
    blockNumbered w (Z.of_N (blockNumberL2 block) - 1) = Some priorBlock /\
    blockNumbered w (Z.of_N (blockNumberL2 block) - 2) = Some priorPriorBlock /\
    (2 <= blockNumberL2 block)%N /\
    In snapshot (timberDb w) /\
    tRoot (tTree snapshot) = root (storedBlock priorPriorBlock) /\
    txDataToSign =
      challengeNewRootCorrect (storedBlock priorBlock)
        (storedTransactions w (transactionHashes (storedBlock priorBlock)))
        frontier block transactions salt /\
    Z.of_nat (List.length frontier) = TIMBER_HEIGHT env + 1 /\
    firstn (List.length (tFrontier (tTree snapshot))) frontier = tFrontier (tTree snapshot) /\
    Forall (fun x => x = ZERO) (skipn (List.length (tFrontier (tTree snapshot))) frontier).
Proof.
  intros Hcode Hbuild. unfold buildChallenge in Hbuild. rewrite Hcode in Hbuild.
  rewrite challengeIncorrectRoot_spec in Hbuild.
  destruct (blockNumbered w (Z.of_N (blockNumberL2 block) - 1)) as [prior|] eqn:Hprior;
    [|discriminate].
  destruct (blockNumbered w (Z.of_N (blockNumberL2 block) - 2)) as [priorPrior|] eqn:Hpp;
    [|discriminate].
  destruct (find _ (timberDb w)) as [snapshot|] eqn:Hsnap; [|discriminate].
  cbv zeta in Hbuild.
  destruct (_ <? 0) eqn:Hpad; [discriminate|]. apply Z.ltb_ge in Hpad.
  injection Hbuild as <- _.
  apply find_some in Hsnap. destruct Hsnap as [Hin Hroot]. apply Z.eqb_eq in Hroot.
  pose proof (blockNumbered_nonneg _ _ _ Hpp) as Hnn.
  exists prior, priorPrior, snapshot,
    (tFrontier (tTree snapshot)
       ++ repeat ZERO (Z.to_nat (TIMBER_HEIGHT env
                                 - Z.of_nat (List.length (tFrontier (tTree snapshot))) + 1))).
  repeat split; try assumption; try reflexivity.
  - lia.
  - rewrite length_app, repeat_length. lia.
  - rewrite firstn_app, Nat.sub_diag, firstn_all. simpl. apply app_nil_r.
  - rewrite skipn_app, Nat.sub_diag, skipn_all. simpl.
    apply Forall_forall. intros x Hx. apply repeat_spec in Hx. exact Hx.
Qed.

Lemma incorrect_root_challenge_pads_the_frontier_witness :
  exists priorBlock priorPriorBlock snapshot frontier,
    blockNumbered rootWorld (Z.of_N (blockNumberL2 blockF) - 1) = Some priorBlock /\
    blockNumbered rootWorld (Z.of_N (blockNumberL2 blockF) - 2) = Some priorPriorBlock /\
    (2 <= blockNumberL2 blockF)%N /\
    In snapshot (timberDb rootWorld) /\
    tRoot (tTree snapshot) = root (storedBlock priorPriorBlock) /\
    challengeNewRootCorrect blockE [txY; txX] (55 :: repeat ZERO 32) blockF [] 1000 =
      challengeNewRootCorrect (storedBlock priorBlock)
        (storedTransactions rootWorld (transactionHashes (storedBlock priorBlock)))
        frontier blockF [] 1000 /\
    Z.of_nat (List.length frontier) = 32 + 1 /\
    firstn (List.length (tFrontier (tTree snapshot))) frontier = tFrontier (tTree snapshot) /\
    Forall (fun x => x = ZERO) (skipn (List.length (tFrontier (tTree snapshot))) frontier).
Proof.
  exact (incorrect_root_challenge_pads_the_frontier
           (demoEnv alwaysOpen accept) blockF []
           (mkBlockError 0 "incorrect root" (mkMetadata 0 0)) 1000 rootWorld
           _ (addLog LDebug "Challenging incorrect root" rootWorld) eq_refl eq_refl).
Defined.

Lemma challengeIncorrectLeafCount_spec block transactions salt w :
  challengeIncorrectLeafCount block transactions salt w =
  match blockNumbered w (Z.of_N (blockNumberL2 block) - 1) with
  | None =>
      (Throw (JsTypeError "Cannot read properties of null (reading 'transactionHashes')"), w)
  | Some priorBlockL2 =>
      (Normal (Some (challengeLeafCountCorrect
                       (storedBlock priorBlockL2)
                       (storedTransactions w (transactionHashes (storedBlock priorBlockL2)))
                       block transactions salt)), w)
  end.
Proof.
  unfold challengeIncorrectLeafCount, blockNumbered, storedTransactions,
    getBlockByBlockNumberL2, getTransactionsByTransactionHashes.
  unfold bind at 1. unfold gets at 1. cbn [fst snd].
  destruct (find _ (blocks w)); reflexivity.
Qed.

(** X6. A block refused for an incorrect leaf count (code 7) is challenged
    with the stored block numbered one less and that block's stored
    transactions. Case 7 has no guard on that lookup: when the prior block
    is not in the store, as for the first block of the chain, the payload
    is not built, [createChallenge] throws a TypeError and so does the
    handler of block-proposed events. *)
Theorem leaf_count_challenge_needs_the_prior_block
    env n l1 block transactions w e :
  checkBlock env (worldAtCheck env n l1 block transactions w) block transactions
    = Throw (JsBlockError e) ->
  code e = 7 ->
  makeChallenges w = true ->
  let wc := worldAtCheck env n l1 block transactions w in
  let r := blockProposedEventHandler env n l1 block transactions w in
  match blockNumbered wc (Z.of_N (blockNumberL2 block) - 1) with
  | None =>
      fst r = Throw (JsTypeError
                       "Cannot read properties of null (reading 'transactionHashes')") /\
      tasks (snd r) = tasks w
  | Some priorBlockL2 =>
      fst r = Normal tt /\
      tasks (snd r) =
        tasks w ++
          [CommitTask
             (Some (challengeLeafCountCorrect
                      (storedBlock priorBlockL2)
                      (storedTransactions w (transactionHashes (storedBlock priorBlockL2)))
                      block transactions (rand env (saltsDrawn w))))]
  end /\
  (blockNumberL2 block = 0%N ->
   fst r = Throw (JsTypeError
                    "Cannot read properties of null (reading 'transactionHashes')")).
Proof.
  intros Hcheck Hcode Hon. cbv zeta.
  rewrite blockProposedEventHandler_unfold. cbv zeta. rewrite Hcheck.
  rewrite createChallenge_unfold.
  replace (makeChallenges (addLog LWarn "Block Checker - Block invalid"
                             (worldAtCheck env n l1 block transactions w)))
    with (makeChallenges w) by reflexivity.
  rewrite Hon. unfold buildChallenge. rewrite Hcode.
  rewrite challengeIncorrectLeafCount_spec.
  replace (blockNumbered
             (set_saltsDrawn
                (S (saltsDrawn (addLog LWarn "Block Checker - Block invalid"
                                  (worldAtCheck env n l1 block transactions w))))
                (addLog LWarn "Block Checker - Block invalid"
                   (worldAtCheck env n l1 block transactions w)))
             (Z.of_N (blockNumberL2 block) - 1))
    with (blockNumbered (worldAtCheck env n l1 block transactions w)
            (Z.of_N (blockNumberL2 block) - 1)) by reflexivity.
  split.
  - destruct (blockNumbered _ _) as [prior|]; split; reflexivity.
  - intro Hzero. unfold blockNumbered. rewrite Hzero. cbn [Z.of_N Z.sub Z.add Z.opp].
    rewrite no_block_below_zero by lia. reflexivity.
Qed.

Lemma leaf_count_challenge_needs_the_prior_block_witness :
  let env := demoEnv alwaysOpen (rejectWith 7) in
  let r := blockProposedEventHandler env 10 900 block0 [tx1] (emptyWorld true) in
  fst r = Throw (JsTypeError
                   "Cannot read properties of null (reading 'transactionHashes')").
Proof.
  exact (proj2 (leaf_count_challenge_needs_the_prior_block
                  (demoEnv alwaysOpen (rejectWith 7)) 10 900 block0 [tx1]
                  (emptyWorld true) (mkBlockError 7 "invalid block" (mkMetadata 0 0))
                  eq_refl eq_refl eq_refl) eq_refl).
Defined.

Lemma historicInputs_spec block roots w :
  mapM (fun b =>
          historicBlock <- getBlockByBlockNumberL2 b ;;
          historicTxs <- getTransactionsByTransactionHashes (transactionHashes block) ;;
          ret (historicBlock, historicTxs)) roots w
  = (Normal (map (fun b => (blockNumbered w b,
                            storedTransactions w (transactionHashes block))) roots), w).
Proof.
  induction roots as [|b roots IH]; [reflexivity|].
  cbn [mapM map]. unfold bind at 1.
  unfold bind at 1. unfold getBlockByBlockNumberL2 at 1. unfold gets at 1. cbn [fst snd].
  unfold bind at 1. unfold getTransactionsByTransactionHashes at 1. unfold gets at 1.
  cbn [fst snd]. unfold ret at 1.
  unfold bind at 1. rewrite IH. reflexivity.
Qed.

(** X8. When [createChallenge] builds the payload of a proof that does not
    verify (code 4), the index of the error points at a transaction of the
    block and the payload carries that transaction's proof. For a deposit
    (type "0") no historic block is attached. For a double transfer (type
    "2") the two historic blocks are the stored blocks numbered by the
    first two historic roots, and the transactions attached to each are
    the stored transactions of the challenged block itself
    ([block.transactionHashes]), not those of the historic block. For any
    other type the historic block is the one numbered by the first
    historic root, with its own stored transactions. *)
Theorem proof_challenge_historic_inputs
    env block transactions err salt w txDataToSign w' :
  code err = 4 ->
  buildChallenge env block transactions err salt w = (Normal (Some txDataToSign), w') ->
  exists tx historic,
    at_index transactions (transactionHashIndex (metadata err)) = Some tx /\
    txDataToSign =
      challengeProofVerification block transactions (transactionHashIndex (metadata err))
        historic (proof tx) salt /\
    if String.eqb (transactionType tx) "0" then historic = []
    else if String.eqb (transactionType tx) "2" then
      exists b1 b2 b1' b2' rest,
        historicRootBlockNumberL2 tx = b1 :: b2 :: rest /\
        blockNumbered w b1 = Some b1' /\ blockNumbered w b2 = Some b2' /\
        historic = [(storedBlock b1', storedTransactions w (transactionHashes block));
                    (storedBlock b2', storedTransactions w (transactionHashes block))]
    else
      exists b b' rest,
        historicRootBlockNumberL2 tx = b :: rest /\
        blockNumbered w b = Some b' /\
        historic = [(storedBlock b',
                     storedTransactions w (transactionHashes (storedBlock b')))].
Proof.
  intros Hcode Hbuild. unfold buildChallenge in Hbuild. rewrite Hcode in Hbuild.
  unfold challengeProofDoesNotVerify in Hbuild.
  destruct (at_index transactions (transactionHashIndex (metadata err))) as [tx|];
    [|discriminate].
  destruct (String.eqb (transactionType tx) "0") eqn:Hdeposit.
  - injection Hbuild as <- _. exists tx, []. rewrite Hdeposit. auto.
  - destruct (String.eqb (transactionType tx) "2") eqn:Hdouble.
    + unfold bind at 1 in Hbuild. rewrite historicInputs_spec in Hbuild.
      destruct (historicRootBlockNumberL2 tx) as [|b1 [|b2 rest]] eqn:Hroots;
        cbn [map] in Hbuild; try discriminate.
      unfold buildSolidityStruct in Hbuild. cbn [fst snd] in Hbuild.
      destruct (blockNumbered w b1) as [b1'|] eqn:Hb1; [|discriminate].
      destruct (blockNumbered w b2) as [b2'|] eqn:Hb2; [|discriminate].
      injection Hbuild as <- _.
      eexists tx, _. rewrite Hdeposit, Hdouble.
      split; [reflexivity|]. split; [reflexivity|].
      exists b1, b2, b1', b2', rest. auto.
    + unfold bind at 1 in Hbuild.
      destruct (historicRootBlockNumberL2 tx) as [|b rest] eqn:Hroots.
      * discriminate.
      * unfold getBlockByBlockNumberL2 at 1, gets at 1 in Hbuild. cbn [fst snd] in Hbuild.
        fold (blockNumbered w b) in Hbuild.
        destruct (blockNumbered w b) as [b'|] eqn:Hb; [|discriminate].
        injection Hbuild as <- _.
        eexists tx, _. rewrite Hdeposit, Hdouble.
        split; [reflexivity|]. split; [reflexivity|].
        exists b, b', rest. auto.
Qed.

Lemma proof_challenge_historic_inputs_witness :
  exists tx historic,
    at_index [txYX] 0 = Some tx /\
    challengeProofVerification blockC [txYX] 0 [(blockD, []); (blockD, [])] [1; 2] 1000 =
      challengeProofVerification blockC [txYX] 0 historic (proof tx) 1000 /\
    if String.eqb (transactionType tx) "0" then historic = []
    else if String.eqb (transactionType tx) "2" then
      exists b1 b2 b1' b2' rest,
        historicRootBlockNumberL2 tx = b1 :: b2 :: rest /\
        blockNumbered duplicateWorld b1 = Some b1' /\
        blockNumbered duplicateWorld b2 = Some b2' /\
        historic =
          [(storedBlock b1', storedTransactions duplicateWorld (transactionHashes blockC));
           (storedBlock b2', storedTransactions duplicateWorld (transactionHashes blockC))]
    else
      exists b b' rest,
        historicRootBlockNumberL2 tx = b :: rest /\
        blockNumbered duplicateWorld b = Some b' /\
        historic = [(storedBlock b',
                     storedTransactions duplicateWorld (transactionHashes (storedBlock b')))].
Proof.
  exact (proof_challenge_historic_inputs
           (demoEnv alwaysOpen accept) blockC [txYX]
           (mkBlockError 4 "proof does not verify" (mkMetadata 0 0)) 1000 duplicateWorld
           _ duplicateWorld eq_refl eq_refl).
Defined.

(** ** The websocket *)

Lemma sends_app t u : sends (t ++ u) = sends t ++ sends u.
Proof. unfold sends. apply flat_map_app. Qed.

Lemma sends_polls k warning : sends (polls k warning) = [].
Proof. induction k; simpl; auto. Qed.

Lemma waits_app t u : waits (t ++ u) = waits t ++ waits u.
Proof. unfold waits. apply flat_map_app. Qed.

Lemma waits_polls k warning : waits (polls k warning) = repeat 3000 k.
Proof. induction k; simpl; [reflexivity|]. rewrite IHk. reflexivity. Qed.

Lemma closedReads_first_open env from fuel k :
  (k < fuel)%nat ->
  (forall i, (i < k)%nat -> wsOpen env (from + i) = false) ->
  wsOpen env (from + k) = true ->
  closedReads env from fuel = k.
Proof.
  revert from fuel. induction k as [|k IH]; intros from fuel Hlt Hclosed Hopen.
  - destruct fuel; [lia|]. simpl. rewrite Nat.add_0_r in Hopen. rewrite Hopen. reflexivity.
  - destruct fuel; [lia|]. simpl.
    rewrite <- (Nat.add_0_r from) at 1. rewrite Hclosed by lia. f_equal.
    apply IH; [lia| |].
    + intros i Hi. replace (S from + i)%nat with (from + S i)%nat by lia.
      apply Hclosed. lia.
    + replace (S from + k)%nat with (from + S k)%nat by lia. exact Hopen.
Qed.

(** What [commitToChallenge] sends: nothing, or one commit message. *)
Lemma commit_sends env txDataToSign w :
  exists t,
    trace (snd (commitToChallenge env txDataToSign w)) = trace w ++ t /\
    (sends t = [] \/ exists h, sends t = [commitMessage h]).
Proof.
  rewrite commitToChallenge_spec.
  destruct (soliditySha3 env txDataToSign) as [h|e].
  - cbv zeta. destruct (_ <? _)%nat; cbn [fst snd]; eexists; (split; [reflexivity|]).
    + right. exists h.
      change (ELog LDebug commitDebug :: ESaveCommit h txDataToSign
                :: polls (closedReads env (wsReads w) pollFuel) commitWarning
                ++ [EWsSend (commitMessage h)])
        with ([ELog LDebug commitDebug; ESaveCommit h txDataToSign]
                ++ polls (closedReads env (wsReads w) pollFuel) commitWarning
                ++ [EWsSend (commitMessage h)]).
      rewrite !sends_app, sends_polls. reflexivity.
    + left.
      change (ELog LDebug commitDebug :: ESaveCommit h txDataToSign
                :: polls pollFuel commitWarning)
        with ([ELog LDebug commitDebug; ESaveCommit h txDataToSign]
                ++ polls pollFuel commitWarning).
      rewrite !sends_app, sends_polls. reflexivity.
  - exists []. rewrite app_nil_r. auto.
Qed.

(** X9. [commitToChallenge] never puts the payload on the websocket. When
    the hashing of the payload throws, nothing is saved and nothing is
    sent. Otherwise the commit record is saved, and the only message the
    call can send is [{type: 'commit'}] with the encoded call
    [commitToChallenge(commitHash)]: it is sent once if one of the first
    102 readings finds the socket open, and not at all otherwise. *)
Theorem commit_message_carries_only_the_hash env txDataToSign w :
  let r := commitToChallenge env txDataToSign w in
  match soliditySha3 env txDataToSign with
  | Throw e => r = (Throw e, w)
  | Normal commitHash =>
      commitsDb (snd r) = commitsDb w ++ [mkCommitRecord commitHash txDataToSign] /\
      exists t,
        trace (snd r) = trace w ++ t /\
        sends t =
          (if (closedReads env (wsReads w) pollFuel <? pollFuel)%nat
           then [mkWsMessage "commit" (Some (commitToChallengeCall commitHash))]
           else [])
  end.
Proof.
  cbv zeta. rewrite commitToChallenge_spec.
  destruct (soliditySha3 env txDataToSign) as [h|e]; [|reflexivity].
  cbv zeta. destruct (_ <? _)%nat; cbn [fst snd]; (split; [reflexivity|]).
  - eexists. split; [reflexivity|].
    change (ELog LDebug commitDebug :: ESaveCommit h txDataToSign
              :: polls (closedReads env (wsReads w) pollFuel) commitWarning
              ++ [EWsSend (commitMessage h)])
      with ([ELog LDebug commitDebug; ESaveCommit h txDataToSign]
              ++ polls (closedReads env (wsReads w) pollFuel) commitWarning
              ++ [EWsSend (commitMessage h)]).
    rewrite !sends_app, sends_polls. reflexivity.
  - eexists. split; [reflexivity|].
    change (ELog LDebug commitDebug :: ESaveCommit h txDataToSign
              :: polls pollFuel commitWarning)
      with ([ELog LDebug commitDebug; ESaveCommit h txDataToSign]
              ++ polls pollFuel commitWarning).
    rewrite !sends_app, sends_polls. reflexivity.
Qed.

(** X10. [revealChallenge] sends the payload at the first reading that
    finds the socket open, after one wait of 3000 milliseconds per closed
    reading before it, provided that reading is among the first 102; the
    message is [{type: 'challenge', txDataToSign}] and nothing else is
    sent. The store, the flag and the pending tasks are left as they
    were. *)
Theorem reveal_sent_at_the_first_open_reading env txDataToSign w k :
  (k < 102)%nat ->
  (forall i, (i < k)%nat -> wsOpen env (wsReads w + i) = false) ->
  wsOpen env (wsReads w + k) = true ->
  let r := revealChallenge env txDataToSign w in
  fst r = Normal tt /\
  sameStore (set_wsReads (wsReads w + k + 1) w) (snd r) /\
  exists t,
    trace (snd r) = trace w ++ t /\
    sends t = [mkWsMessage "challenge" txDataToSign] /\
    waits t = repeat 3000 k.
Proof.
  intros Hk Hclosed Hopen. cbv zeta. rewrite revealChallenge_spec. cbv zeta.
  rewrite (closedReads_first_open env (wsReads w) pollFuel k Hk Hclosed Hopen).
  replace (k <? pollFuel)%nat with true
    by (symmetry; apply Nat.ltb_lt; exact Hk).
  cbn [fst snd]. split; [reflexivity|]. split.
  - unfold sameStore, advance. world_simpl. repeat split. lia.
  - eexists. split; [reflexivity|].
    change (ELog LDebug revealDebug
              :: polls k revealWarning ++ [EWsSend (mkWsMessage "challenge" txDataToSign)])
      with ([ELog LDebug revealDebug]
              ++ polls k revealWarning ++ [EWsSend (mkWsMessage "challenge" txDataToSign)]).
    rewrite !sends_app, !waits_app, sends_polls, waits_polls. simpl.
    rewrite app_nil_r. auto.
Qed.

Lemma reveal_sent_at_the_first_open_reading_witness :
  let env := demoEnv (fun i => Nat.eqb i 3) accept in
  let r := revealChallenge env (Some challengePayload) (emptyWorld false) in
  fst r = Normal tt /\
  sameStore (set_wsReads (wsReads (emptyWorld false) + 3 + 1) (emptyWorld false)) (snd r) /\
  exists t,
    trace (snd r) = trace (emptyWorld false) ++ t /\
    sends t = [mkWsMessage "challenge" (Some challengePayload)] /\
    waits t = repeat 3000 3.
Proof.
  apply (reveal_sent_at_the_first_open_reading
           (demoEnv (fun i => Nat.eqb i 3) accept) (Some challengePayload)
           (emptyWorld false) 3).
  - lia.
  - intros i Hi. destruct i as [|[|[|i]]]; [reflexivity|reflexivity|reflexivity|lia].
  - reflexivity.
Defined.

(** X11. [revealChallenge] gives up at the cap: when the first 102
    readings all find the socket closed, it has waited 102 times 3000
    milliseconds, it throws "Websocket to $challenger has failed" and it
    has sent nothing; the store, the flag and the pending tasks are left as
    they were. *)
Theorem reveal_abandoned_at_the_retry_cap env txDataToSign w :
  (forall i, (i < 102)%nat -> wsOpen env (wsReads w + i) = false) ->
  let r := revealChallenge env txDataToSign w in
  fst r = Throw (JsError "Websocket to $challenger has failed") /\
  sameStore (set_wsReads (wsReads w + 102) w) (snd r) /\
  exists t,
    trace (snd r) = trace w ++ t /\ sends t = [] /\ waits t = repeat 3000 102.
Proof.
  intros Hclosed. cbv zeta. rewrite revealChallenge_spec. cbv zeta.
  rewrite closedReads_all_closed by exact Hclosed.
  replace (pollFuel <? pollFuel)%nat with false by reflexivity.
  cbn [fst snd]. split; [reflexivity|]. split.
  - unfold sameStore, advance. world_simpl. repeat split.
  - eexists. split; [reflexivity|].
    change (ELog LDebug revealDebug :: polls pollFuel revealWarning)
      with ([ELog LDebug revealDebug] ++ polls pollFuel revealWarning).
    rewrite !sends_app, !waits_app, sends_polls, waits_polls. split; reflexivity.
Qed.

Lemma reveal_abandoned_at_the_retry_cap_witness :
  let r := revealChallenge (demoEnv neverOpen accept) (Some challengePayload)
             (emptyWorld true) in
  fst r = Throw (JsError "Websocket to $challenger has failed") /\
  sameStore (set_wsReads (wsReads (emptyWorld true) + 102) (emptyWorld true)) (snd r) /\
  exists t,
    trace (snd r) = trace (emptyWorld true) ++ t /\ sends t = [] /\
    waits t = repeat 3000 102.
Proof.
  exact (reveal_abandoned_at_the_retry_cap (demoEnv neverOpen accept)
           (Some challengePayload) (emptyWorld true) (fun i _ => eq_refl)).
Defined.

(** ** The handler of block-proposed events and the commit tasks *)

(** X12. One block-proposed event starts at most one commit task, and
    starts it only when the checker threw a BlockError while challenges
    were on; in that case the handler returns. A valid block, an error
    that is not a BlockError, a construction of the payload that throws
    and a coordinator that is off all leave the pending tasks as they
    were. *)
Theorem at_most_one_commit_task_per_block env n l1 block transactions w :
  let r := blockProposedEventHandler env n l1 block transactions w in
  tasks (snd r) = tasks w \/
  exists e o,
    checkBlock env (worldAtCheck env n l1 block transactions w) block transactions
      = Throw (JsBlockError e) /\
    makeChallenges w = true /\
    fst r = Normal tt /\
    tasks (snd r) = tasks w ++ [CommitTask o].
Proof.
  cbv zeta. rewrite blockProposedEventHandler_unfold. cbv zeta.
  destruct (checkBlock env _ block transactions) as [[]|err] eqn:Hcheck; [left; reflexivity|].
  destruct err as [msg|msg|msg|e|]; try (left; reflexivity).
  destruct (makeChallenges w) eqn:Hon.
  - assert (Hon' : makeChallenges (addLog LWarn "Block Checker - Block invalid"
                                     (worldAtCheck env n l1 block transactions w)) = true)
      by exact Hon.
    destruct (createChallenge_on env block transactions e _ Hon') as [t [c [_ [_ Hrun]]]].
    rewrite Hrun. destruct c as [o|e']; [right|left; reflexivity].
    exists e, o. repeat split.
  - left. rewrite createChallenge_unfold.
    replace (makeChallenges (addLog LWarn "Block Checker - Block invalid"
                               (worldAtCheck env n l1 block transactions w)))
      with (makeChallenges w) by reflexivity.
    rewrite Hon. reflexivity.
Qed.

Lemma blockProposedEventHandler_leafCount env n l1 block transactions w :
  tLeafCount (latestTimber (timberDb (snd (blockProposedEventHandler env n l1 block
                                             transactions w))))
  = tLeafCount (latestTimber (timberDb w))
    + Z.of_nat (List.length (nonZeroCommitments transactions)).
Proof.
  destruct (blockProposedEventHandler_store env n l1 block transactions w) as [_ [_ Ht]].
  rewrite Ht. unfold worldAtCheck. cbn [timberDb]. rewrite latestTimber_snoc.
  cbn [tTree]. unfold statelessUpdate, nonZeroCommitments.
  destruct (updateNodes env _ _ _). reflexivity.
Qed.

(** X13. The handler of block-proposed events advances the tree for every
    block it is given, before the check and whatever its verdict: over any
    sequence of block-proposed events, with valid and invalid blocks and
    handlers that return or throw, the leaf count of the latest tree grows
    by the number of non-zero commitments of all the blocks. *)
Theorem leaf_count_counts_every_block_proposed env inputs :
  forall w,
    Forall isBlockProposed inputs ->
    tLeafCount (latestTimber (timberDb (run env inputs w)))
    = tLeafCount (latestTimber (timberDb w)) + commitmentsProposed inputs.
Proof.
  induction inputs as [|i rest IH]; intros w Hall; simpl; [lia|].
  inversion Hall as [|i' rest' Hi Hrest]; subst.
  destruct i as [n l1 block transactions| | | | |]; try destruct Hi.
  rewrite IH by exact Hrest. cbn [handle].
  rewrite blockProposedEventHandler_leafCount. lia.
Qed.

Lemma leaf_count_counts_every_block_proposed_witness :
  tLeafCount (latestTimber (timberDb
    (run (demoEnv alwaysOpen (rejectWith 0))
         [BlockProposed 10 900 block0 [tx1]; BlockProposed 11 901 blockC [txYX]]
         (emptyWorld true))))
  = tLeafCount (latestTimber (timberDb (emptyWorld true)))
    + commitmentsProposed
        [BlockProposed 10 900 block0 [tx1]; BlockProposed 11 901 blockC [txYX]].
Proof.
  apply (leaf_count_counts_every_block_proposed (demoEnv alwaysOpen (rejectWith 0))).
  repeat constructor.
Defined.

Lemma blockProposedEventHandler_off env n l1 block transactions w :
  makeChallenges w = false ->
  let w1 := snd (blockProposedEventHandler env n l1 block transactions w) in
  tasks w1 = tasks w /\ saltsDrawn w1 = saltsDrawn w /\ makeChallenges w1 = false.
Proof.
  intro Hoff. cbv zeta. rewrite blockProposedEventHandler_unfold. cbv zeta.
  destruct (checkBlock env _ block transactions) as [[]|err]; [repeat split; exact Hoff|].
  destruct err as [msg|msg|msg|e|]; try (repeat split; exact Hoff).
  rewrite createChallenge_unfold.
  replace (makeChallenges (addLog LWarn "Block Checker - Block invalid"
                             (worldAtCheck env n l1 block transactions w)))
    with (makeChallenges w) by reflexivity.
  rewrite Hoff. repeat split; exact Hoff.
Qed.

Lemma sends_quiet t : Forall quiet t -> sends t = [].
Proof.
  induction 1 as [|e t He Ht IH]; [reflexivity|].
  change (e :: t) with ([e] ++ t). rewrite sends_app, IH.
  destruct e; simpl in *; try reflexivity. destruct He.
Qed.

(** X14. A node that only proposes never takes part in a challenge: with
    challenges off, over any sequence of block-proposed events, whatever
    the checker says of the blocks, no commit task is started, no salt is
    drawn, no commit record is saved, nothing is sent on the websocket, and
    the flag stays off. *)
Theorem proposer_only_never_commits env inputs :
  forall w,
    Forall isBlockProposed inputs ->
    makeChallenges w = false ->
    let w' := run env inputs w in
    tasks w' = tasks w /\ saltsDrawn w' = saltsDrawn w /\
    commitsDb w' = commitsDb w /\ makeChallenges w' = false /\
    exists t, trace w' = trace w ++ t /\ sends t = [].
Proof.
  induction inputs as [|i rest IH]; intros w Hall Hoff; cbv zeta; simpl.
  - repeat split; [exact Hoff|]. exists []. rewrite app_nil_r. auto.
  - inversion Hall as [|i' rest' Hi Hrest]; subst.
    destruct i as [n l1 block transactions| | | | |]; try destruct Hi.
    cbn [handle].
    destruct (blockProposedEventHandler_off env n l1 block transactions w Hoff)
      as [Ht [Hs Hm]].
    destruct (quietly_blockProposedEventHandler env n l1 block transactions w)
      as [Hc [t [Htr Hq]]].
    destruct (IH _ Hrest Hm) as [Ht' [Hs' [Hc' [Hm' [t' [Htr' Hsend]]]]]].
    repeat split; try congruence.
    exists (t ++ t'). rewrite Htr', Htr, app_assoc. split; [reflexivity|].
    rewrite sends_app, Hsend, (sends_quiet t Hq). reflexivity.
Qed.

Lemma proposer_only_never_commits_witness :
  let w' := run (demoEnv alwaysOpen (rejectWith 2))
                [BlockProposed 10 900 block0 [tx1]; BlockProposed 11 901 blockC [txYX]]
                (emptyWorld false) in
  tasks w' = tasks (emptyWorld false) /\ saltsDrawn w' = saltsDrawn (emptyWorld false) /\
  commitsDb w' = commitsDb (emptyWorld false) /\ makeChallenges w' = false /\
  exists t, trace w' = trace (emptyWorld false) ++ t /\ sends t = [].
Proof.
  apply (proposer_only_never_commits (demoEnv alwaysOpen (rejectWith 2))).
  - repeat constructor.
  - reflexivity.
Defined.

(** ** The verdict of [verify] *)

Lemma settle_pending p : Zokrates.settle p Zokrates.Pending = p.
Proof. destruct p; reflexivity. Qed.

Lemma settle_settle p q r :
  Zokrates.settle (Zokrates.settle p q) r = Zokrates.settle p (Zokrates.settle q r).
Proof. destruct p; reflexivity. Qed.

Lemma string_append_assoc (a b c : string) :
  String.append (String.append a b) c = String.append a (String.append b c).
Proof. induction a as [|x a IH]; simpl; [reflexivity|]. rewrite IH. reflexivity. Qed.

Lemma string_append_empty (a : string) : String.append a "" = a.
Proof. induction a as [|x a IH]; simpl; [reflexivity|]. rewrite IH. reflexivity. Qed.

(** Before the process closes: the output grows, only stderr settles the
    promise, and no file is deleted. *)
Lemma verify_before_close pf vk pre :
  Forall Zokrates.notClose pre ->
  forall out p u,
    fold_left (Zokrates.onEvent pf vk) pre (Zokrates.mkRun out p u) =
    Zokrates.mkRun
      (String.append out (Zokrates.stdoutOf pre))
      (Zokrates.settle p
         match Zokrates.firstStderr pre with
         | Some err => Zokrates.Rejected (String.append "Verify failed: " err)
         | None => Zokrates.Pending
         end)
      u.
Proof.
  induction 1 as [|e pre He Hpre IH]; intros out p u.
  - cbn [fold_left Zokrates.stdoutOf Zokrates.firstStderr].
    rewrite string_append_empty, settle_pending. reflexivity.
  - destruct e as [data|err|]; [| |destruct He].
    + cbn [fold_left Zokrates.onEvent Zokrates.output Zokrates.promise Zokrates.unlinked
           Zokrates.stdoutOf Zokrates.firstStderr].
      rewrite IH, string_append_assoc. reflexivity.
    + cbn [fold_left Zokrates.onEvent Zokrates.output Zokrates.promise Zokrates.unlinked
           Zokrates.stdoutOf Zokrates.firstStderr].
      rewrite IH, settle_settle. reflexivity.
Qed.

(** A settled promise stays as it is. *)
Lemma verify_settled pf vk post :
  forall r,
    Zokrates.promise r <> Zokrates.Pending ->
    Zokrates.promise (fold_left (Zokrates.onEvent pf vk) post r) = Zokrates.promise r.
Proof.
  induction post as [|e post IH]; intros r Hr; [reflexivity|].
  cbn [fold_left]. rewrite IH.
  - destruct e; cbn [Zokrates.onEvent Zokrates.promise]; [reflexivity| |];
      destruct (Zokrates.promise r); try contradiction; try reflexivity;
      destruct (Zokrates.includes _ "panicked"), (Zokrates.includes _ "PASS"); reflexivity.
  - destruct e; cbn [Zokrates.onEvent Zokrates.promise]; [exact Hr| |];
      destruct (Zokrates.promise r); try contradiction; try discriminate;
      destruct (Zokrates.includes _ "panicked"), (Zokrates.includes _ "PASS"); discriminate.
Qed.

(** X15. The verdict of [verify] on a run of the zokrates process that
    writes, then closes: if anything was written to stderr the promise is
    rejected with "Verify failed: " and the first chunk; otherwise, if the
    output holds "panicked", it is rejected with the output from that word
    on, even when the output also holds "PASS"; otherwise it resolves to
    whether the output holds "PASS". The two temporary files are deleted
    when the process closes and not before, and nothing that happens after
    the close changes the verdict. *)
Theorem verify_verdict pf vk pre post :
  Forall Zokrates.notClose pre ->
  let out := Zokrates.stdoutOf pre in
  let closed := Zokrates.verify pf vk (pre ++ [Zokrates.Close]) in
  Zokrates.promise closed =
    match Zokrates.firstStderr pre with
    | Some err => Zokrates.Rejected (String.append "Verify failed: " err)
    | None =>
        if Zokrates.includes out "panicked"
        then Zokrates.Rejected (Zokrates.sliceFrom out "panicked")
        else Zokrates.Resolved (Zokrates.includes out "PASS")
    end /\
  Zokrates.unlinked closed = [pf; vk] /\
  Zokrates.unlinked (Zokrates.verify pf vk pre) = [] /\
  Zokrates.promise (Zokrates.verify pf vk (pre ++ Zokrates.Close :: post))
    = Zokrates.promise closed.
Proof.
  intro Hpre. cbv zeta. unfold Zokrates.verify, Zokrates.start.
  assert (Hclosed :
    fold_left (Zokrates.onEvent pf vk) (pre ++ [Zokrates.Close])
      (Zokrates.mkRun "" Zokrates.Pending []) =
    Zokrates.mkRun (Zokrates.stdoutOf pre)
      match Zokrates.firstStderr pre with
      | Some err => Zokrates.Rejected (String.append "Verify failed: " err)
      | None =>
          if Zokrates.includes (Zokrates.stdoutOf pre) "panicked"
          then Zokrates.Rejected (Zokrates.sliceFrom (Zokrates.stdoutOf pre) "panicked")
          else Zokrates.Resolved (Zokrates.includes (Zokrates.stdoutOf pre) "PASS")
      end
      [pf; vk]).
  { rewrite fold_left_app, (verify_before_close pf vk pre Hpre).
    cbn [fold_left Zokrates.onEvent Zokrates.output Zokrates.promise Zokrates.unlinked
         String.append Zokrates.settle app].
    destruct (Zokrates.firstStderr pre);
      destruct (Zokrates.includes _ "panicked"), (Zokrates.includes _ "PASS");
      reflexivity. }
  split; [rewrite Hclosed; reflexivity|].
  split; [rewrite Hclosed; reflexivity|].
  split; [rewrite (verify_before_close pf vk pre Hpre); reflexivity|].
  change (pre ++ Zokrates.Close :: post) with (pre ++ [Zokrates.Close] ++ post).
  rewrite app_assoc, fold_left_app. apply verify_settled.
  rewrite Hclosed. cbn [Zokrates.promise].
  destruct (Zokrates.firstStderr pre); [discriminate|].
  destruct (Zokrates.includes _ "panicked"); discriminate.
Qed.

Lemma verify_verdict_witness :
  let pre := [Zokrates.StdoutData "Performing verification"; Zokrates.StdoutData "PASS";
              Zokrates.StdoutData "thread main panicked at"] in
  Zokrates.promise (Zokrates.verify "proof.json" "verify.key" (pre ++ [Zokrates.Close]))
    = Zokrates.Rejected "panicked at" /\
  Zokrates.unlinked (Zokrates.verify "proof.json" "verify.key" (pre ++ [Zokrates.Close]))
    = ["proof.json"; "verify.key"].
Proof.
  cbv zeta.
  assert (Hpre : Forall Zokrates.notClose
                   [Zokrates.StdoutData "Performing verification";
                    Zokrates.StdoutData "PASS";
                    Zokrates.StdoutData "thread main panicked at"])
    by (repeat constructor).
  pose proof (verify_verdict "proof.json" "verify.key"
                [Zokrates.StdoutData "Performing verification"; Zokrates.StdoutData "PASS";
                 Zokrates.StdoutData "thread main panicked at"] [] Hpre) as H.
  cbv zeta in H. destruct H as [Hpromise [Hunlinked _]].
  split; [exact Hpromise|exact Hunlinked].
Defined.

Lemma events_split_at_close (events : list Zokrates.ProcessEvent) :
  Forall Zokrates.notClose events \/
  exists pre post, events = pre ++ Zokrates.Close :: post /\ Forall Zokrates.notClose pre.
Proof.
  induction events as [|e events IH]; [left; constructor|].
  destruct e as [data|err|].
  - destruct IH as [Hall|[pre [post [-> Hpre]]]].
    + left. constructor; [exact I|exact Hall].
    + right. exists (Zokrates.StdoutData data :: pre), post. split; [reflexivity|].
      constructor; [exact I|exact Hpre].
  - destruct IH as [Hall|[pre [post [-> Hpre]]]].
    + left. constructor; [exact I|exact Hall].
    + right. exists (Zokrates.StderrData err :: pre), post. split; [reflexivity|].
      constructor; [exact I|exact Hpre].
  - right. exists [], events. split; [reflexivity|constructor].
Qed.

(** X16. [verify] answers true only for a process that has closed, wrote
    nothing to stderr before closing, and whose output up to the close
    holds "PASS" and does not hold "panicked"; this for any sequence of
    events of the process. *)
Theorem verify_true_only_on_a_clean_pass pf vk events :
  Zokrates.promise (Zokrates.verify pf vk events) = Zokrates.Resolved true ->
  exists pre post,
    events = pre ++ Zokrates.Close :: post /\
    Forall Zokrates.notClose pre /\
    Zokrates.firstStderr pre = None /\
    Zokrates.includes (Zokrates.stdoutOf pre) "PASS" = true /\
    Zokrates.includes (Zokrates.stdoutOf pre) "panicked" = false.
Proof.
  intro Htrue.
  destruct (events_split_at_close events) as [Hall|[pre [post [-> Hpre]]]].
  - exfalso. unfold Zokrates.verify, Zokrates.start in Htrue.
    rewrite (verify_before_close pf vk events Hall) in Htrue. cbn in Htrue.
    destruct (Zokrates.firstStderr events); discriminate.
  - exists pre, post. split; [reflexivity|]. split; [exact Hpre|].
    assert (Hclosed :
      Zokrates.promise (Zokrates.verify pf vk (pre ++ Zokrates.Close :: post)) =
      match Zokrates.firstStderr pre with
      | Some err => Zokrates.Rejected (String.append "Verify failed: " err)
      | None =>
          if Zokrates.includes (Zokrates.stdoutOf pre) "panicked"
          then Zokrates.Rejected (Zokrates.sliceFrom (Zokrates.stdoutOf pre) "panicked")
          else Zokrates.Resolved (Zokrates.includes (Zokrates.stdoutOf pre) "PASS")
      end).
    { unfold Zokrates.verify, Zokrates.start.
      change (pre ++ Zokrates.Close :: post) with (pre ++ [Zokrates.Close] ++ post).
      rewrite app_assoc, fold_left_app.
      assert (Hc :
        fold_left (Zokrates.onEvent pf vk) (pre ++ [Zokrates.Close])
          (Zokrates.mkRun "" Zokrates.Pending []) =
        Zokrates.mkRun (Zokrates.stdoutOf pre)
          match Zokrates.firstStderr pre with
          | Some err => Zokrates.Rejected (String.append "Verify failed: " err)
          | None =>
              if Zokrates.includes (Zokrates.stdoutOf pre) "panicked"
              then Zokrates.Rejected (Zokrates.sliceFrom (Zokrates.stdoutOf pre) "panicked")
              else Zokrates.Resolved (Zokrates.includes (Zokrates.stdoutOf pre) "PASS")
          end
          [pf; vk]).
      { rewrite fold_left_app, (verify_before_close pf vk pre Hpre).
        cbn [fold_left Zokrates.onEvent Zokrates.output Zokrates.promise
             Zokrates.unlinked String.append Zokrates.settle app].
        destruct (Zokrates.firstStderr pre);
          destruct (Zokrates.includes _ "panicked"), (Zokrates.includes _ "PASS");
          reflexivity. }
      rewrite verify_settled; rewrite Hc; cbn [Zokrates.promise]; [reflexivity|].
      destruct (Zokrates.firstStderr pre); [discriminate|].
      destruct (Zokrates.includes _ "panicked"); discriminate. }
    rewrite Hclosed in Htrue.
    destruct (Zokrates.firstStderr pre); [discriminate|].
    destruct (Zokrates.includes (Zokrates.stdoutOf pre) "panicked"); [discriminate|].
    injection Htrue as Hpass. auto.
Qed.

Lemma verify_true_only_on_a_clean_pass_witness :
  exists pre post,
    [Zokrates.StdoutData "Performing verification"; Zokrates.StdoutData " PASS";
     Zokrates.Close] = pre ++ Zokrates.Close :: post /\
    Forall Zokrates.notClose pre /\
    Zokrates.firstStderr pre = None /\
    Zokrates.includes (Zokrates.stdoutOf pre) "PASS" = true /\
    Zokrates.includes (Zokrates.stdoutOf pre) "panicked" = false.
Proof.
  exact (verify_true_only_on_a_clean_pass "proof.json" "verify.key"
           [Zokrates.StdoutData "Performing verification"; Zokrates.StdoutData " PASS";
            Zokrates.Close] eq_refl).
Defined.

(** ** POST /transfer *)

Lemma postTransfer_cases Number handler tx :
  TransferRoute.postTransfer Number handler (Some tx) =
  TransferRoute.LogDebug "transfer endpoint received POST"
  :: TransferRoute.LogSilly "With content"
  :: (if acceptedType (Number (transactionType tx))
      then TransferRoute.TransactionSubmitted tx ::
           match handler tx with
           | None => [TransferRoute.SendStatus 200]
           | Some (TransferRoute.TransactionError message) =>
               [TransferRoute.LogWarn
                  (String.append "The transaction check failed with error: "
                     (String.append message ". The transaction has been ignored"));
                TransferRoute.SendStatus 400]
           | Some (TransferRoute.OtherError message) =>
               [TransferRoute.LogError message; TransferRoute.SendStatus 400]
           end
      else [TransferRoute.SendStatus 400]).
Proof.
  unfold TransferRoute.postTransfer, acceptedType.
  destruct (Number (transactionType tx)) as [z|]; [|reflexivity].
  destruct z as [|p|p]; try reflexivity.
  destruct p as [[p|p|]|[p|p|]|]; reflexivity.
Qed.

(** X17. POST /transfer answers every request with exactly one status. It
    answers 200 only when the transaction type is 1, 2 or 3 as a number
    and [transactionSubmittedEventHandler] returned; the handler is given
    the transaction exactly when the type is 1, 2 or 3, so a deposit (type
    0), an unknown type or a body without a transaction is answered 400
    without the handler being called, and an exception of the handler is
    caught and answered 400. *)
Theorem transfer_route_answers_once Number handler transaction :
  let es := TransferRoute.postTransfer Number handler transaction in
  (TransferRoute.statuses es = [200] \/ TransferRoute.statuses es = [400]) /\
  (TransferRoute.statuses es = [200] <->
   exists tx, transaction = Some tx /\
              acceptedType (Number (transactionType tx)) = true /\ handler tx = None) /\
  TransferRoute.submitted es =
    match transaction with
    | Some tx => if acceptedType (Number (transactionType tx)) then [tx] else []
    | None => []
    end.
Proof.
  cbv zeta. destruct transaction as [tx|].
  - rewrite postTransfer_cases.
    destruct (acceptedType (Number (transactionType tx))) eqn:Hacc.
    + destruct (handler tx) as [[message|message]|] eqn:Hh; cbn.
      * split; [right; reflexivity|]. split; [|reflexivity].
        split; [discriminate|]. intros [tx' [Heq [_ Hnone]]].
        injection Heq as <-. rewrite Hh in Hnone. discriminate.
      * split; [right; reflexivity|]. split; [|reflexivity].
        split; [discriminate|]. intros [tx' [Heq [_ Hnone]]].
        injection Heq as <-. rewrite Hh in Hnone. discriminate.
      * split; [left; reflexivity|]. split; [|reflexivity].
        split; [|reflexivity]. intros _. exists tx. auto.
    + cbn. split; [right; reflexivity|]. split; [|reflexivity].
      split; [discriminate|]. intros [tx' [Heq [Hacc' _]]].
      injection Heq as <-. rewrite Hacc in Hacc'. discriminate.
  - cbn. split; [right; reflexivity|]. split; [|reflexivity].
    split; [discriminate|]. intros [tx' [Heq _]]. discriminate.
Qed.

(** ** The challenger's client *)

(** X18. The message handler of [Nf3.startChallenger] submits a
    transaction for a message of type 'challenge' and for no other: the
    reveal sent by [revealChallenge] is submitted once, with the payload as
    data, to the State contract, with value 0; the commit message sent by
    [commitToChallenge] is dropped, so this client never puts a commit on
    chain. *)
Theorem challenger_client_submits_reveals_only env nf3 nonce txDataToSign w tc tr :
  trace (snd (commitToChallenge env txDataToSign w)) = trace w ++ tc ->
  trace (snd (revealChallenge env txDataToSign w)) = trace w ++ tr ->
  flat_map (Nf3.challengerOnMessage nf3 nonce) (sends tc) = [] /\
  flat_map (Nf3.challengerOnMessage nf3 nonce) (sends tr) =
    match fst (revealChallenge env txDataToSign w) with
    | Normal _ =>
        [Nf3.mkEthTx (Nf3.stateContractAddress nf3) txDataToSign 0
           10000000 10000000000 nonce]
    | Throw _ => []
    end.
Proof.
  intros Hc Hr. split.
  - pose proof (commit_sends env txDataToSign w) as Hs.
    destruct Hs as [t [Ht Hsends]]. rewrite Ht in Hc. apply app_inv_head in Hc. subst tc.
    destruct Hsends as [Hsends|[h Hsends]]; rewrite Hsends; reflexivity.
  - rewrite revealChallenge_spec in *. cbv zeta in *.
    destruct (_ <? _)%nat; unfold advance in Hr; revert Hr; world_simpl; intro Hr;
      apply app_inv_head in Hr; subst tr.
    + change (ELog LDebug revealDebug
                :: polls (closedReads env (wsReads w) pollFuel) revealWarning
                ++ [EWsSend (mkWsMessage "challenge" txDataToSign)])
        with ([ELog LDebug revealDebug]
                ++ polls (closedReads env (wsReads w) pollFuel) revealWarning
                ++ [EWsSend (mkWsMessage "challenge" txDataToSign)]).
      rewrite !sends_app, sends_polls. reflexivity.
    + change (ELog LDebug revealDebug :: polls pollFuel revealWarning)
        with ([ELog LDebug revealDebug] ++ polls pollFuel revealWarning).
      rewrite !sends_app, sends_polls. reflexivity.
Qed.

Lemma challenger_client_submits_reveals_only_witness :
  let env := demoEnv alwaysOpen accept in
  let w := emptyWorld true in
  flat_map (Nf3.challengerOnMessage demoNf3 5)
    (sends (trace (snd (commitToChallenge env (Some challengePayload) w)))) = [] /\
  flat_map (Nf3.challengerOnMessage demoNf3 5)
    (sends (trace (snd (revealChallenge env (Some challengePayload) w)))) =
    [Nf3.mkEthTx "0xState" (Some challengePayload) 0 10000000 10000000000 5].
Proof.
  exact (challenger_client_submits_reveals_only
           (demoEnv alwaysOpen accept) demoNf3 5 (Some challengePayload) (emptyWorld true)
           _ _ eq_refl eq_refl).
Defined.
